(** * employees.py: the animated bar chart, the two bar charts and the sidebar

    A shallow embedding of [src/employees.py]: [animate_plot], the
    tables that [ages_hist] and [unit_bar] build and hand to it, the
    three sidebar filters with the entries of their select boxes, and
    the ticks that [mean_line_scatter] computes.

    Numbers are the two kinds the program handles: integers (Python [int],
    [numpy.int64]) and IEEE 754 binary64 values (Python [float],
    [numpy.float64]), the latter through the bit-exact operations of
    [SpecFloat].  Streamlit's [bar_chart] and [time.sleep] are recorded as
    the frames of the run; nothing is drawn and nothing waits.

    What the model leaves out:
    - memory and index-type limits: an array may have any length;
    - the index of the table: rows are numbered 0, 1, 2, ... as in the
      tables [ages_hist] and [unit_bar] build, so that [.at[nrow, y_col]]
      and [.iloc[nrow]] address the same row, and [x_col] and [y_col] are
      two different columns;
    - the dtype of [df_temp]: a cell holds the number last written to it,
      whatever pandas does to the dtype of the column;
    - characters outside ASCII, and patterns with special characters
      other than the dot, in the Employee ID filter;
    - missing values in the Employee_ID, Hometown and Unit columns: they
      hold strings, while the Age column is binary64 and may hold NaN;
    - the order pandas gives to equally frequent values in
      [value_counts]: the model fixes one, and the chart is shown not to
      depend on it;
    - reading the CSV file, the cache, and the drawing done by seaborn
      and matplotlib. *)

From Stdlib Require Import ZArith List Bool Ascii String Lia.
From Stdlib Require Import Floats.SpecFloat.
From stdpp Require Import base list sorting.

Local Open Scope Z_scope.

(** ** Numbers *)

Module Num.

Definition prec : Z := 53.
Definition emax : Z := 1024.

(** A cell of a numeric column, or a Python scalar. *)
Inductive num :=
| NInt (z : Z)
| NFloat (f : spec_float).

(** [numpy.int64] arithmetic wraps around. *)
Definition wrap64 (z : Z) : Z := (z + 2 ^ 63) mod 2 ^ 64 - 2 ^ 63.

(** Conversion of an integer to binary64, round to nearest even. *)
Definition Z2SF (z : Z) : spec_float := binary_normalize prec emax z 0 false.

Definition to_float (n : num) : spec_float :=
  match n with
  | NInt z => Z2SF z
  | NFloat f => f
  end.

(** The literals of the source. *)
Definition f_0_1 : spec_float := S754_finite false 7205759403792794 (-56).
Definition f_0_3 : spec_float := S754_finite false 5404319552844595 (-54).

(** [a + b]: integer when both are, binary64 otherwise. *)
Definition py_add (a b : num) : num :=
  match a, b with
  | NInt x, NInt y => NInt (wrap64 (x + y))
  | _, _ => NFloat (SFadd prec emax (to_float a) (to_float b))
  end.

Definition py_sub (a b : num) : num :=
  match a, b with
  | NInt x, NInt y => NInt (wrap64 (x - y))
  | _, _ => NFloat (SFsub prec emax (to_float a) (to_float b))
  end.

(** [a / b] is true division: always binary64. *)
Definition py_truediv (a b : num) : spec_float :=
  SFdiv prec emax (to_float a) (to_float b).

(** Exceptions the modelled code can raise. *)
Inductive exn := ValueError | OverflowError | ZeroDivisionError.

Inductive result (A : Type) :=
| Ok (a : A)
| Raise (e : exn).
Arguments Ok {A} a.
Arguments Raise {A} e.

(** The signed mantissa of a finite value. *)
Definition signed (s : bool) (m : positive) : Z := cond_Zopp s (Zpos m).

(** [ceil] of a binary64 value as an integer.  A NaN or an infinity has
    none: [numpy.arange] refuses to compute a length from them. *)
Definition py_ceil (f : spec_float) : result Z :=
  match f with
  | S754_zero _ => Ok 0
  | S754_finite s m e => Ok (- Z.shiftl (- signed s m) e)
  | S754_infinity _ => Raise OverflowError
  | S754_nan => Raise ValueError
  end.

(** [a > b] on binary64; false when either side is a NaN. *)
Definition SFgtb (a b : spec_float) : bool := SFltb b a.

(** [a > b] where [b] is a Python [int] literal. *)
Definition py_gt_int (a : num) (b : Z) : bool :=
  match a with
  | NInt z => b <? z
  | NFloat f => SFgtb f (Z2SF b)
  end.

Definition is_nan (f : spec_float) : bool :=
  match f with S754_nan => true | _ => false end.

End Num.
Import Num.

(** ** numpy.arange *)

Module Numpy.

(** [ceil (a / b)] on integers, for [b <> 0]. *)
Definition ceil_div (a b : Z) : Z := - ((- a) / b).

(** Element [i] of a binary64 range: numpy stores [start] and
    [start + step], takes their difference [delta] and fills the rest
    with [start + i * delta]. *)
Definition arange_item (first next : spec_float) (i : Z) : spec_float :=
  match i with
  | 0 => first
  | 1 => next
  | _ => SFadd prec emax first
           (SFmul prec emax (Z2SF i) (SFsub prec emax next first))
  end.

(** [numpy.arange(start, stop, step)].  With integer arguments it is
    Python's [range]; otherwise the result is binary64, of length
    [ceil((stop - start) / step)] computed in binary64, and empty when
    that is not positive.  A quotient that is a NaN or an infinity has no
    ceiling and numpy raises. *)
Definition arange (start stop step : num) : result (list num) :=
  match start, stop, step with
  | NInt a, NInt b, NInt s =>
      if s =? 0 then Raise ZeroDivisionError
      else Ok ((fun i => NInt (a + i * s)) <$> seqZ 0 (ceil_div (b - a) s))
  | _, _, _ =>
      match py_ceil (py_truediv (py_sub stop start) step) with
      | Raise e => Raise e
      | Ok n =>
          let first := to_float start in
          let next := to_float (py_add start step) in
          Ok ((fun i => NFloat (arange_item first next i)) <$> seqZ 0 n)
      end
  end.

End Numpy.
Import Numpy.

(** ** pandas columns and frames *)

Module Pandas.

(** A numeric column has one dtype. *)
Inductive column :=
| IntCol (l : list Z)
| FloatCol (l : list spec_float).

Definition cells (c : column) : list num :=
  match c with
  | IntCol l => NInt <$> l
  | FloatCol l => NFloat <$> l
  end.

(** The table [animate_plot] receives: the label column [x_col] and the
    numeric column [y_col], rows in index order 0, 1, 2, ... *)
Record DataFrame := {
  x_values : list string;
  y_values : column
}.

(** [Series.max()]: NaNs are skipped, an empty column gives NaN. *)
Definition fmax (a b : spec_float) : spec_float :=
  if SFltb a b then b else a.

Definition series_max (c : column) : num :=
  match c with
  | IntCol [] => NFloat S754_nan
  | IntCol (z :: l) => NInt (fold_left Z.max l z)
  | FloatCol l =>
      match List.filter (fun f => negb (is_nan f)) l with
      | [] => NFloat S754_nan
      | f :: fs => NFloat (fold_left fmax fs f)
      end
  end.

End Pandas.
Import Pandas.

(** ** animate_plot *)

Module Animate.

(** What [container.bar_chart] is given: the working copy [df_temp]. *)
Record chart := {
  labels : list string;
  heights : list num
}.

(** One pass through the body of the inner loop: the chart drawn and the
    argument of [time.sleep]. *)
Record frame := {
  drawn : chart;
  slept : spec_float
}.

(** How a run ends: it returns, or an exception leaves it. *)
Inductive outcome :=
| Returned
| Raised (e : exn).

(** A finished run: the frames of each row's sweep, in row order, the
    working copy at the end and the way the run ended. *)
Record run := {
  sweeps : list (list frame);
  df_temp : chart;
  ending : outcome
}.

(** Lines 58 to 63: the step and the base of the delay. *)
Definition threshold : Z := 8.

Definition coarse (mx : num) : bool := py_gt_int mx threshold.

Definition step_of (mx : num) : num :=
  if coarse mx then NInt 1 else NFloat f_0_1.

Definition step_time_of (mx : num) : spec_float :=
  if coarse mx then f_0_3 else f_0_1.

Section Loops.
(** Fixed during a run: the labels, the column maximum and the two
    values chosen from it. *)
Variable xs : list string.
Variable mx : num.

Let step := step_of mx.
Let step_time := step_time_of mx.

(** Lines 66 to 68, once for every [current_value].  [nrow] is a valid
    index of [df_temp] whenever the body runs; stdpp's insert leaves
    the list alone otherwise. *)
Fixpoint inner_loop (nrow : nat) (values : list num) (temp : list num)
  : list frame * list num :=
  match values with
  | [] => ([], temp)
  | current_value :: rest =>
      let temp' := <[nrow := py_add current_value step]> temp in
      let f := {| drawn := {| labels := xs; heights := temp' |};
                  slept := py_truediv (NFloat step_time) mx |} in
      let '(fs, temp'') := inner_loop nrow rest temp' in
      (f :: fs, temp'')
  end.

(** Lines 64 and 65: the rows from [nrow] on.  [targets] holds
    [df[y_col].iloc[nrow]], [df[y_col].iloc[nrow + 1]], ... *)
Fixpoint outer_loop (nrow : nat) (targets : list num) (temp : list num)
  : list (list frame) * list num * outcome :=
  match targets with
  | [] => ([], temp, Returned)
  | target :: rest =>
      match arange (NInt 0) target step with
      | Raise e => ([], temp, Raised e)
      | Ok values =>
          let '(fs, temp') := inner_loop nrow values temp in
          let '(ss, temp'', o) := outer_loop (S nrow) rest temp' in
          (fs :: ss, temp'', o)
      end
  end.
End Loops.

Definition animate_plot (df : DataFrame) : run :=
  let targets := cells (y_values df) in
  let temp := replicate (length targets) (NInt 0) in
  let mx := series_max (y_values df) in
  let '(ss, temp', o) := outer_loop (x_values df) mx 0 targets temp in
  {| sweeps := ss;
     df_temp := {| labels := x_values df; heights := temp' |};
     ending := o |}.

End Animate.
Import Animate.

(** ** The sidebar filters *)

Module Filters.

Local Open Scope string_scope.

(** A row of the employee table.  The filters read three columns; the
    others are carried along. *)
Record employee := {
  Employee_ID : string;
  Hometown : string;
  Unit : string;
  other_columns : list string
}.

(** Lower case of an ASCII letter, as [re.IGNORECASE] folds it. *)
Definition lower (c : ascii) : ascii :=
  let n := nat_of_ascii c in
  if ((65 <=? n) && (n <=? 90))%nat then ascii_of_nat (n + 32) else c.

(** The part of Python's pattern language modelled here: ordinary
    characters and the dot.  [Series.str.contains] is called without
    [regex=False], so its argument is a pattern. *)
Inductive atom :=
| Lit (c : ascii)
| AnyChar.

Definition special (c : ascii) : bool :=
  existsb (Ascii.eqb c) (list_ascii_of_string ".^$*+?{}[]\|()").

(** [re.compile(pat, re.IGNORECASE)]; [None] for a pattern with a
    special character other than the dot. *)
Fixpoint compile (pat : string) : option (list atom) :=
  match pat with
  | EmptyString => Some []
  | String c rest =>
      match compile rest with
      | None => None
      | Some atoms =>
          if Ascii.eqb c "."%char then Some (AnyChar :: atoms)
          else if special c then None
          else Some (Lit c :: atoms)
      end
  end.

Definition newline : ascii := ascii_of_nat 10.

Definition atom_matches (a : atom) (c : ascii) : bool :=
  match a with
  | Lit l => Ascii.eqb (lower l) (lower c)
  | AnyChar => negb (Ascii.eqb c newline)
  end.

(** The atoms match a prefix of [s]. *)
Fixpoint match_here (atoms : list atom) (s : string) : bool :=
  match atoms, s with
  | [], _ => true
  | _ :: _, EmptyString => false
  | a :: atoms', String c s' => atom_matches a c && match_here atoms' s'
  end.

(** [regex.search(s)]: a match at some offset. *)
Fixpoint search (atoms : list atom) (s : string) : bool :=
  match_here atoms s ||
  match s with
  | EmptyString => false
  | String _ s' => search atoms s'
  end.

(** Lines 205 to 207.  [Series.str.contains(text_input_id, case=False)]
    searches every Employee_ID for the compiled pattern; the rows where it
    finds a match are kept. *)
Definition filter_id (text_input_id : string) (df : list employee)
  : option (list employee) :=
  if String.eqb text_input_id "" then Some df
  else
    match compile text_input_id with
    | None => None
    | Some atoms =>
        Some (List.filter (fun r => search atoms (Employee_ID r)) df)
    end.

(** Lines 211 to 213. *)
Definition filter_hometown (selectbox_hometown : string)
  (df : list employee) : list employee :=
  if negb (String.eqb selectbox_hometown "All")
  then List.filter (fun r => String.eqb (Hometown r) selectbox_hometown) df
  else df.

(** Lines 217 to 219. *)
Definition filter_unit (selectbox_unit : string) (df : list employee)
  : list employee :=
  if negb (String.eqb selectbox_unit "All")
  then List.filter (fun r => String.eqb (Unit r) selectbox_unit) df
  else df.

(** Lines 201 to 219: [df_employees_filtred] as displayed. *)
Definition df_employees_filtred (text_input_id selectbox_hometown
  selectbox_unit : string) (df_employees : list employee)
  : option (list employee) :=
  match filter_id text_input_id df_employees with
  | None => None
  | Some df => Some (filter_unit selectbox_unit
                       (filter_hometown selectbox_hometown df))
  end.

(** The words of the specification: [text] occurs in [s] as a
    substring, letters compared without case. *)
Fixpoint ci_prefix (text s : string) : bool :=
  match text, s with
  | EmptyString, _ => true
  | String _ _, EmptyString => false
  | String a text', String c s' =>
      Ascii.eqb (lower a) (lower c) && ci_prefix text' s'
  end.

Fixpoint ci_substring (text s : string) : bool :=
  ci_prefix text s ||
  match s with
  | EmptyString => false
  | String _ s' => ci_substring text s'
  end.

End Filters.
Import Filters.

(** ** Comparing what is displayed with what was asked for *)

Module Order.

(** A binary64 value against an integer, exactly, as Python compares a
    [float] with an [int]. *)
Definition float_vs_int (f : spec_float) (z : Z) : option comparison :=
  match f with
  | S754_nan => None
  | S754_infinity s => Some (if s then Lt else Gt)
  | S754_zero _ => Some (0 ?= z)
  | S754_finite s m e =>
      Some (if 0 <=? e then signed s m * 2 ^ e ?= z
            else signed s m ?= z * 2 ^ (- e))
  end.

Definition num_compare (a b : num) : option comparison :=
  match a, b with
  | NInt x, NInt y => Some (x ?= y)
  | NFloat f, NFloat g => SFcompare f g
  | NFloat f, NInt z => float_vs_int f z
  | NInt z, NFloat f => option_map CompOpp (float_vs_int f z)
  end.

Definition num_eqb (a b : num) : bool :=
  match num_compare a b with Some Eq => true | _ => false end.

Definition num_ltb (a b : num) : bool :=
  match num_compare a b with Some Lt => true | _ => false end.

Definition num_leb (a b : num) : bool :=
  match num_compare a b with Some (Lt | Eq) => true | _ => false end.

(** [0 <= n], [0 < n] and [n < 0]. *)
Definition nonneg (n : num) : bool :=
  match n with
  | NInt z => 0 <=? z
  | NFloat f => SFleb (S754_zero false) f
  end.

Definition positive_num (n : num) : bool :=
  match n with
  | NInt z => 0 <? z
  | NFloat f => SFltb (S754_zero false) f
  end.

Definition negative_num (n : num) : bool :=
  match n with
  | NInt z => z <? 0
  | NFloat f => SFltb f (S754_zero false)
  end.

Definition is_zero (n : num) : bool :=
  match n with
  | NInt z => z =? 0
  | NFloat f => SFeqb f (S754_zero false)
  end.

(** Neither a NaN nor an infinity. *)
Definition finite (n : num) : bool :=
  match n with
  | NInt _ => true
  | NFloat (S754_zero _ | S754_finite _ _ _) => true
  | NFloat _ => false
  end.

(** A value a column can hold: an [int64], or a binary64 in canonical
    form. *)
Definition well_formed (n : num) : bool :=
  match n with
  | NInt z => (- 2 ^ 63 <=? z) && (z <? 2 ^ 63)
  | NFloat f => valid_binary prec emax f
  end.

(** The sign bit of a binary64 value is [s]; a NaN has none and
    passes. *)
Definition has_sign (s : bool) (f : spec_float) : Prop :=
  match f with
  | S754_zero s' | S754_infinity s' | S754_finite s' _ _ => s' = s
  | S754_nan => True
  end.

(** Column-wide versions. *)
Definition nonneg_column (c : column) : bool := forallb nonneg (cells c).
Definition finite_column (c : column) : bool := forallb finite (cells c).
Definition well_formed_column (c : column) : bool :=
  forallb well_formed (cells c).
Definition zero_column (c : column) : bool := forallb is_zero (cells c).

(** The displayed table equals the target table, row by row. *)
Definition equals_target (shown targets : list num) : Prop :=
  Forall2 (fun d t => num_eqb d t = true) shown targets.

(** Every displayed value lies between 0 and its target. *)
Definition clamped (shown targets : list num) : Prop :=
  Forall2 (fun d t => num_leb (NInt 0) d = true /\ num_leb d t = true)
    shown targets.

End Order.
Import Order.

(** ** The shape of a run *)

Module Trace.

(** The frame drawn when the working copy holds [temp]. *)
Definition paint (xs : list string) (mx : num) (temp : list num) : frame :=
  {| drawn := {| labels := xs; heights := temp |};
     slept := py_truediv (NFloat (step_time_of mx)) mx |}.

(** What the sweep of a row with target [target] leaves in its cell:
    the last value written, or the initial 0 when nothing was written. *)
Definition settle (mx : num) (target : num) : num :=
  match arange (NInt 0) target (step_of mx) with
  | Ok values =>
      match last values with
      | Some v => py_add v (step_of mx)
      | None => NInt 0
      end
  | Raise _ => NInt 0
  end.

(** What the frames of row [j]'s own sweep left in row [j]: the height
    in the last of them, or the initial 0 when there was none. *)
Definition left_by_sweep (r : run) (j : nat) : num :=
  match sweeps r !! j ≫= last with
  | Some f => default (NInt 0) (heights (drawn f) !! j)
  | None => NInt 0
  end.


(** The number of frames drawn for row [i]. *)
Definition frames_of_row (r : run) (i : nat) : nat :=
  match sweeps r !! i with
  | Some s => length s
  | None => 0
  end.

End Trace.
Import Trace.

(** ** The tables of the specification *)

Module Examples.

Local Open Scope string_scope.

Definition ages : DataFrame :=
  {| x_values := ["18-19"; "20-29"]; y_values := IntCol [5; 12] |}.

Definition units : DataFrame :=
  {| x_values := ["HR"; "IT"]; y_values := IntCol [2; 3] |}.

(** The binary64 values nearest to 0.05, 4.4 and 8.5. *)
Definition f_0_05 : spec_float := S754_finite false 7205759403792794 (-57).
Definition f_8_5 : spec_float := S754_finite false 4785074604081152 (-49).

Definition tiny : DataFrame :=
  {| x_values := ["a"]; y_values := FloatCol [f_0_05] |}.

Definition half : DataFrame :=
  {| x_values := ["a"]; y_values := FloatCol [f_8_5] |}.




Definition staff : list employee :=
  [ {| Employee_ID := "EID_22713"; Hometown := "Franklin"; Unit := "R&D";
       other_columns := [] |};
    {| Employee_ID := "EID_9658"; Hometown := "Springfield"; Unit := "IT";
       other_columns := [] |};
    {| Employee_ID := "EID_22203"; Hometown := "Franklin"; Unit := "Sales";
       other_columns := [] |} ].

(** An Age column: nine employees of 25, one of 70, one of 17 and one
    of unknown age. *)
Definition crowd : list spec_float :=
  replicate 9 (Z2SF 25) ++ [S754_nan; Z2SF 70; Z2SF 17].

(** Ten rows, nine of them of one unit. *)
Definition busy : list employee :=
  replicate 9 {| Employee_ID := "EID_9000"; Hometown := "Franklin";
                 Unit := "IT"; other_columns := [] |}
  ++ [ {| Employee_ID := "EID_9001"; Hometown := "Springfield";
          Unit := "Sales"; other_columns := [] |} ].

End Examples.
Import Examples.

(** ** Counting and sorting, as pandas and Python do *)

Module Tables.

(** Python orders strings by code point. *)
Definition str_le : relation string := fun a b => String.leb a b = true.

#[global] Instance str_le_dec : RelDecision str_le :=
  fun a b => decide (String.leb a b = true).

(** [sorted(l)] on strings. *)
Definition sorted (l : list string) : list string := merge_sort str_le l.

(** [Series.unique()]: the distinct values, each where it first appears. *)
Fixpoint unique (l : list string) : list string :=
  match l with
  | [] => []
  | x :: rest =>
      x :: List.filter (fun y => negb (String.eqb y x)) (unique rest)
  end.

Definition occurrences (u : string) (l : list string) : Z :=
  Z.of_nat (length (List.filter (String.eqb u) l)).

(** Rows by count, largest first. *)
Definition count_ge : relation (string * Z) := fun r1 r2 => r2.2 <= r1.2.

#[global] Instance count_ge_dec : RelDecision count_ge :=
  fun r1 r2 => decide (r2.2 <= r1.2).

(** [Series.value_counts().reset_index()]: one row per distinct value,
    with the number of its occurrences, the most frequent first.  pandas
    promises no order among values of equal count; here they come as
    the merge sort leaves them. *)
Definition value_counts (l : list string) : list (string * Z) :=
  merge_sort count_ge ((fun u => (u, occurrences u l)) <$> unique l).

(** Rows by their first column. *)
Definition key_le : relation (string * Z) := fun r1 r2 => str_le r1.1 r2.1.

#[global] Instance key_le_dec : RelDecision key_le :=
  fun r1 r2 => decide (String.leb r1.1 r2.1 = true).

(** [sort_values(by the first column).reset_index(drop=True)]. *)
Definition sort_values (rows : list (string * Z)) : list (string * Z) :=
  merge_sort key_le rows.

(** [Series.dropna()] on a binary64 column. *)
Definition dropna (l : list spec_float) : list spec_float :=
  List.filter (fun f => negb (is_nan f)) l.

(** [Series.min()], as [series_max]. *)
Definition fmin (a b : spec_float) : spec_float :=
  if SFltb b a then b else a.

Definition series_min (c : column) : num :=
  match c with
  | IntCol [] => NFloat S754_nan
  | IntCol (z :: l) => NInt (fold_left Z.min l z)
  | FloatCol l =>
      match dropna l with
      | [] => NFloat S754_nan
      | f :: fs => NFloat (fold_left fmin fs f)
      end
  end.

(** [int(x)]: towards zero; a NaN or an infinity has no integer. *)
Definition py_int (x : num) : result Z :=
  match x with
  | NInt z => Ok z
  | NFloat (S754_zero _) => Ok 0
  | NFloat (S754_finite s m e) =>
      Ok (if 0 <=? e then signed s m * 2 ^ e
          else Z.quot (signed s m) (2 ^ (- e)))
  | NFloat (S754_infinity _) => Raise OverflowError
  | NFloat S754_nan => Raise ValueError
  end.

End Tables.
Import Tables.

(** ** The sidebar select boxes *)

Module Sidebar.

Local Open Scope string_scope.

(** Line 211: the entries of the Hometown select box. *)
Definition hometown_options (df_employees : list employee) : list string :=
  "All" :: sorted (unique (Hometown <$> df_employees)).

(** Line 217: the entries of the Unit select box. *)
Definition unit_options (df_employees : list employee) : list string :=
  "All" :: sorted (unique (Unit <$> df_employees)).



(** Strictly before, in the order of [sorted]. *)
Definition str_lt : relation string := fun a b => String.ltb a b = true.

End Sidebar.
Import Sidebar.

(** ** The two bar charts and the ticks of the scatter plots *)

Module Charts.

Local Open Scope string_scope.

(** What a chart function puts on the page: one chart, or the frames
    of an animation. *)
Inductive rendering :=
| Static (c : chart)
| Animated (r : run).

(** [st.bar_chart(data=df, x=x_col, y=y_col)] draws the table as it is. *)
Definition bar_chart (df : DataFrame) : chart :=
  {| labels := x_values df; heights := cells (y_values df) |}.

(** The branch on [animetcheck] that ends [ages_hist] and [unit_bar]. *)
Definition render (df : DataFrame) (animetcheck : bool) : rendering :=
  if animetcheck then Animated (animate_plot df) else Static (bar_chart df).

(** Lines 84 and 86. *)
Definition bin_edges : list Z := [18; 20; 30; 40; 50; 60; 70].

Definition age_ranges : list string :=
  ["18-19"; "20-29"; "30-39"; "40-49"; "50-59"; "60-69"].

(** [lo <= a < hi], or [lo <= a <= hi] in the last bin. *)
Definition in_bin (lo hi : Z) (closed : bool) (a : spec_float) : bool :=
  SFleb (Z2SF lo) a
  && (if closed then SFleb a (Z2SF hi) else SFltb a (Z2SF hi)).

(** [numpy.histogram(a, bins=edges)[0]]: the number of values in each
    bin; every bin is half-open but the last, values outside all bins
    are not counted. *)
Fixpoint np_histogram (a : list spec_float) (edges : list Z) : list Z :=
  match edges with
  | lo :: ((hi :: rest) as upper) =>
      Z.of_nat (length (List.filter
                          (in_bin lo hi (match rest with [] => true | _ => false end))
                          a))
      :: np_histogram a upper
  | _ => []
  end.

(** Lines 83 to 90: [hist_df], from the Age column of the table. *)
Definition hist_df (age : list spec_float) : DataFrame :=
  {| x_values := age_ranges;
     y_values := IntCol (np_histogram (dropna age) bin_edges) |}.

(** An age within the outer edges of the bins. *)
Definition counted (a : spec_float) : bool :=
  SFleb (Z2SF 18) a && SFleb a (Z2SF 70).

(** The position of the label that names a whole age: ["18-19"] below
    20, then one label for each ten years. *)
Definition decade_bar (n : Z) : nat :=
  Z.to_nat (if (n <? 20)%Z then 0 else Z.min 5 (n / 10 - 1)).

(** [ages_hist(df, animetcheck)], [age] being [df['Age']]. *)
Definition ages_hist (age : list spec_float) (animetcheck : bool)
  : rendering :=
  render (hist_df age) animetcheck.

(** Lines 109 to 111: [unit_counts]. *)
Definition unit_counts (df : list employee) : DataFrame :=
  let rows := sort_values (value_counts (Unit <$> df)) in
  {| x_values := fst <$> rows; y_values := IntCol (snd <$> rows) |}.

(** [unit_bar(df, animetcheck)]. *)
Definition unit_bar (df : list employee) (animetcheck : bool) : rendering :=
  render (unit_counts df) animetcheck.

(** Lines 159 to 161 of [mean_line_scatter]: the ticks of the x axis,
    from the column the rows are grouped by. *)
Definition x_ticks (x_column : column) : result (list num) :=
  match py_int (series_min x_column) with
  | Raise e => Raise e
  | Ok min_x =>
      match py_int (series_max x_column) with
      | Raise e => Raise e
      | Ok max_x => arange (NInt min_x) (NInt (max_x + 1)) (NInt 2)
      end
  end.

End Charts.
Import Charts.

(** * Facts about the loops *)

#[local] Arguments arange : simpl never.
#[local] Arguments py_add : simpl never.
#[local] Arguments py_truediv : simpl never.
#[local] Arguments step_of : simpl never.
#[local] Arguments step_time_of : simpl never.
#[local] Arguments series_max : simpl never.
#[local] Arguments settle : simpl never.

Section LoopFacts.
Variable xs : list string.
Variable mx : num.

Local Notation "'step'" := (step_of mx).
Local Notation "'zeros' n" := (replicate n (NInt 0)) (at level 10, n at level 9).

(** The inner loop draws one frame per value and writes one cell. *)
Lemma inner_loop_frames nrow values temp :
  (inner_loop xs mx nrow values temp).1
  = (fun v => paint xs mx (<[nrow := py_add v step]> temp)) <$> values.
Proof.
  revert temp. induction values as [|v values IH]; intros temp; simpl; [done|].
  specialize (IH (<[nrow := py_add v step]> temp)).
  destruct (inner_loop xs mx nrow values _) as [fs temp''].
  simpl in *. rewrite IH. f_equal.
  apply list_fmap_ext. intros _ w _.
  by rewrite list_insert_insert_eq.
Qed.

Lemma inner_loop_temp nrow values temp :
  (inner_loop xs mx nrow values temp).2
  = match last values with
    | Some v => <[nrow := py_add v step]> temp
    | None => temp
    end.
Proof.
  revert temp. induction values as [|v values IH]; intros temp; simpl; [done|].
  specialize (IH (<[nrow := py_add v step]> temp)).
  destruct (inner_loop xs mx nrow values _) as [fs temp''].
  simpl in *. rewrite IH.
  destruct values as [|w values]; [done|].
  rewrite last_cons_cons.
  destruct (last (w :: values)) eqn:E.
  - by rewrite list_insert_insert_eq.
  - by apply last_None in E.
Qed.

(** Writing the cell that follows the rows already swept. *)
Lemma write_cell (pre : list num) (v old : num) (post : list num) :
  <[length pre := v]> (pre ++ old :: post) = pre ++ v :: post.
Proof.
  replace (length pre) with (length pre + 0)%nat by lia.
  by rewrite insert_app_r.
Qed.

(** The state after the sweep of one row. *)
Lemma inner_loop_settles (pre : list num) target values n :
  arange (NInt 0) target step = Ok values ->
  (inner_loop xs mx (length pre) values (pre ++ zeros (S n))).2
  = (pre ++ [settle mx target]) ++ zeros n.
Proof.
  intros Hr. rewrite inner_loop_temp. unfold settle. rewrite Hr.
  rewrite <- app_assoc. simpl.
  destruct (last values); [|done].
  apply write_cell.
Qed.

(** Every sweep the outer loop records is the sweep of its row: one
    frame per value of the range, the rows before it settled and the
    rows after it still at 0. *)
Lemma outer_loop_sweeps targets : forall pre ss temp' o i s,
  outer_loop xs mx (length pre) targets (pre ++ zeros (length targets))
    = (ss, temp', o) ->
  ss !! i = Some s ->
  exists target values,
    targets !! i = Some target
    /\ arange (NInt 0) target step = Ok values
    /\ s = (fun v => paint xs mx
              (pre ++ (settle mx <$> take i targets)
                   ++ py_add v step
                   :: zeros (length targets - S i))) <$> values.
Proof.
  induction targets as [|t rest IH]; intros pre ss temp' o i s; simpl.
  - intros [= <- <- <-]. done.
  - destruct (arange (NInt 0) t step) as [values|e] eqn:Hr.
    2:{ intros [= <- <- <-]. done. }
    pose proof (inner_loop_frames (length pre) values
                  (pre ++ NInt 0 :: zeros (length rest))) as Hf.
    pose proof (inner_loop_settles pre t values (length rest) Hr) as Ht.
    simpl in Ht.
    destruct (inner_loop xs mx (length pre) values _) as [fs temp1].
    simpl in Hf, Ht. subst temp1.
    specialize (IH (pre ++ [settle mx t])).
    rewrite length_app in IH. simpl in IH.
    replace (length pre + 1)%nat with (S (length pre)) in IH by lia.
    destruct (outer_loop xs mx (S (length pre)) rest _)
      as [[ss1 temp2] o1] eqn:Ho.
    intros [= <- <- <-] Hi.
    destruct i as [|i]; simpl in Hi.
    + injection Hi as <-. exists t, values. split; [done|]. split; [done|].
      rewrite Hf. apply list_fmap_ext. intros _ v _. simpl.
      rewrite write_cell. by rewrite Nat.sub_0_r.
    + destruct (IH ss1 temp2 o1 i s eq_refl Hi) as (t' & vs & H1 & H2 & H3).
      exists t', vs. split; [done|]. split; [done|].
      rewrite H3. apply list_fmap_ext. intros _ v _. simpl.
      by rewrite <- app_assoc.
Qed.

(** The working copy when the outer loop stops. *)
Lemma outer_loop_final targets : forall pre ss temp' o,
  outer_loop xs mx (length pre) targets (pre ++ zeros (length targets))
    = (ss, temp', o) ->
  temp' = pre ++ (settle mx <$> take (length ss) targets)
              ++ zeros (length targets - length ss).
Proof.
  induction targets as [|t rest IH]; intros pre ss temp' o; simpl.
  - intros [= <- <- <-]. done.
  - destruct (arange (NInt 0) t step) as [values|e] eqn:Hr.
    2:{ intros [= <- <- <-]. done. }
    pose proof (inner_loop_settles pre t values (length rest) Hr) as Ht.
    simpl in Ht.
    destruct (inner_loop xs mx (length pre) values _) as [fs temp1].
    simpl in Ht. subst temp1.
    specialize (IH (pre ++ [settle mx t])).
    rewrite length_app in IH. simpl in IH.
    replace (length pre + 1)%nat with (S (length pre)) in IH by lia.
    destruct (outer_loop xs mx (S (length pre)) rest _)
      as [[ss1 temp2] o1] eqn:Ho.
    intros [= <- <- <-]. simpl.
    rewrite (IH ss1 temp2 o1 eq_refl). by rewrite <- app_assoc.
Qed.

(** The outer loop records a sweep for every row it reached, and stops
    at the first row whose range cannot be computed. *)
Lemma outer_loop_ending targets : forall nrow temp ss temp' o,
  outer_loop xs mx nrow targets temp = (ss, temp', o) ->
  match o with
  | Returned => length ss = length targets
  | Raised e =>
      exists target, targets !! length ss = Some target
                     /\ arange (NInt 0) target step = Raise e
  end.
Proof.
  induction targets as [|t rest IH]; intros nrow temp ss temp' o; simpl.
  - intros [= <- <- <-]. done.
  - destruct (arange (NInt 0) t step) as [values|e] eqn:Hr.
    2:{ intros [= <- <- <-]. simpl. eauto. }
    destruct (inner_loop xs mx nrow values temp) as [fs temp1].
    destruct (outer_loop xs mx (S nrow) rest temp1)
      as [[ss1 temp2] o1] eqn:Ho.
    intros [= <- <- <-]. specialize (IH _ _ _ _ _ Ho).
    destruct o1; simpl; [by rewrite IH | done].
Qed.

(** It returns when every range can be computed. *)
Lemma outer_loop_returns targets : forall nrow temp,
  Forall (fun t => exists values, arange (NInt 0) t step = Ok values)
    targets ->
  (outer_loop xs mx nrow targets temp).2 = Returned.
Proof.
  induction targets as [|t rest IH]; intros nrow temp Hall; simpl; [done|].
  inversion Hall as [|? ? [values Hr] Hrest]; subst. rewrite Hr.
  destruct (inner_loop xs mx nrow values temp) as [fs temp1].
  specialize (IH (S nrow) temp1 Hrest).
  by destruct (outer_loop xs mx (S nrow) rest temp1) as [[ss1 temp2] o1].
Qed.

End LoopFacts.

(** * Facts about a run of animate_plot *)

Section RunFacts.
Variable df : DataFrame.

Local Notation "'xs'" := (x_values df).
Local Notation "'targets'" := (cells (y_values df)).
Local Notation "'mx'" := (series_max (y_values df)).
Local Notation "'step'" := (step_of mx).
Local Notation "'zeros' n" := (replicate n (NInt 0)) (at level 10, n at level 9).

Lemma run_unfold :
  outer_loop xs mx 0 targets (zeros (length targets))
  = (sweeps (animate_plot df), heights (df_temp (animate_plot df)),
     ending (animate_plot df)).
Proof.
  unfold animate_plot.
  by destruct (outer_loop xs mx 0 targets _) as [[ss temp'] o].
Qed.

Lemma run_labels : labels (df_temp (animate_plot df)) = xs.
Proof.
  unfold animate_plot.
  by destruct (outer_loop xs mx 0 targets _) as [[ss temp'] o].
Qed.

(** The sweep of row [i]. *)
Lemma run_sweep i s :
  sweeps (animate_plot df) !! i = Some s ->
  exists target values,
    targets !! i = Some target
    /\ arange (NInt 0) target step = Ok values
    /\ s = (fun v => paint xs mx
              ((settle mx <$> take i targets)
                 ++ py_add v step :: zeros (length targets - S i)))
           <$> values.
Proof.
  intros Hs.
  exact (outer_loop_sweeps xs mx targets [] _ _ _ i s run_unfold Hs).
Qed.

(** The working copy at the end. *)
Lemma run_final :
  heights (df_temp (animate_plot df))
  = (settle mx <$> take (length (sweeps (animate_plot df))) targets)
      ++ zeros (length targets - length (sweeps (animate_plot df))).
Proof. exact (outer_loop_final xs mx targets [] _ _ _ run_unfold). Qed.

Lemma run_ending :
  match ending (animate_plot df) with
  | Returned => length (sweeps (animate_plot df)) = length targets
  | Raised e =>
      exists target,
        targets !! length (sweeps (animate_plot df)) = Some target
        /\ arange (NInt 0) target step = Raise e
  end.
Proof. exact (outer_loop_ending xs mx targets _ _ _ _ _ run_unfold). Qed.

Lemma run_returns :
  Forall (fun t => exists values, arange (NInt 0) t step = Ok values)
    targets ->
  ending (animate_plot df) = Returned.
Proof.
  intros H. pose proof (outer_loop_returns xs mx targets 0
                          (zeros (length targets)) H) as Hr.
  by rewrite run_unfold in Hr.
Qed.

Lemma run_sweeps_bound :
  (length (sweeps (animate_plot df)) <= length targets)%nat.
Proof.
  pose proof run_ending as H. destruct (ending (animate_plot df)).
  - lia.
  - destruct H as (t & Ht & _). apply lookup_lt_Some in Ht. lia.
Qed.

(** A frame of the sweep of row [i], cell by cell. *)
Lemma frame_heights i s k f :
  sweeps (animate_plot df) !! i = Some s ->
  s !! k = Some f ->
  exists target values v,
    targets !! i = Some target
    /\ arange (NInt 0) target step = Ok values
    /\ values !! k = Some v
    /\ length s = length values
    /\ f = paint xs mx
             ((settle mx <$> take i targets)
                ++ py_add v step :: zeros (length targets - S i)).
Proof.
  intros Hs Hk. destruct (run_sweep i s Hs) as (t & values & Ht & Hr & ->).
  rewrite list_lookup_fmap in Hk.
  destruct (values !! k) as [v|] eqn:Hv; [|done].
  injection Hk as <-. exists t, values, v.
  by rewrite length_fmap.
Qed.

(** The final value of a row whose sweep was recorded. *)
Lemma final_height j :
  (j < length (sweeps (animate_plot df)))%nat ->
  heights (df_temp (animate_plot df)) !! j = settle mx <$> targets !! j.
Proof.
  intros Hj. rewrite run_final.
  rewrite lookup_app_l.
  2:{ rewrite length_fmap, length_take. pose proof run_sweeps_bound. lia. }
  rewrite list_lookup_fmap. by rewrite lookup_take_lt.
Qed.


(** What a recorded sweep left in its own row is [settle]. *)
Lemma left_by_sweep_settle j target :
  (j < length (sweeps (animate_plot df)))%nat ->
  targets !! j = Some target ->
  left_by_sweep (animate_plot df) j = settle mx target.
Proof.
  intros Hj Ht. unfold left_by_sweep.
  destruct (lookup_lt_is_Some_2 _ _ Hj) as [s Hs]. rewrite Hs. simpl.
  destruct (run_sweep j s Hs) as (t & values & Ht' & Hr & ->).
  rewrite Ht in Ht'. injection Ht' as <-.
  unfold settle. rewrite Hr. rewrite fmap_last.
  destruct (last values) as [v|]; simpl; [|done].
  rewrite lookup_app_r; rewrite length_fmap, length_take.
  2:{ apply lookup_lt_Some in Ht. lia. }
  apply lookup_lt_Some in Ht.
  replace (j - j `min` length targets)%nat with 0%nat by lia. done.
Qed.

End RunFacts.

(** * Integer columns swept with the coarse step *)

Lemma wrap64_small z : - 2 ^ 63 <= z < 2 ^ 63 -> wrap64 z = z.
Proof. intros H. unfold wrap64. rewrite Z.mod_small; lia. Qed.

Lemma arange_int t : arange (NInt 0) (NInt t) (NInt 1) = Ok (NInt <$> seqZ 0 t).
Proof.
  unfold arange. simpl. f_equal.
  replace (ceil_div (t - 0) 1) with t.
  2:{ unfold ceil_div. rewrite Z.div_1_r. lia. }
  apply list_fmap_ext. intros _ i _. f_equal. lia.
Qed.

Lemma last_seqZ n : last (seqZ 0 n) = if 0 <? n then Some (n - 1) else None.
Proof.
  rewrite last_lookup, length_seqZ.
  destruct (0 <? n) eqn:Hn.
  - apply Z.ltb_lt in Hn. rewrite lookup_seqZ_lt by lia. f_equal. lia.
  - apply Z.ltb_ge in Hn. apply lookup_seqZ_ge. lia.
Qed.

Lemma settle_int mx t :
  step_of mx = NInt 1 -> 0 <= t < 2 ^ 63 -> settle mx (NInt t) = NInt t.
Proof.
  intros Hs Ht. unfold settle. rewrite Hs, arange_int, fmap_last, last_seqZ.
  destruct (0 <? t) eqn:Hpos; simpl.
  - unfold py_add. f_equal. rewrite wrap64_small; lia.
  - apply Z.ltb_ge in Hpos. f_equal. lia.
Qed.

Lemma int64_nonneg_lookup (l : list Z) :
  forallb (fun t => (0 <=? t) && (t <? 2 ^ 63)) l = true ->
  forall i t, l !! i = Some t -> 0 <= t < 2 ^ 63.
Proof.
  intros H i t Hi. rewrite forallb_forall in H.
  assert (Hin : In t l).
  { apply list_elem_of_In. by apply (list_elem_of_lookup_2 l i). }
  specialize (H t Hin). lia.
Qed.

Section CoarseIntegers.
Variable xs : list string.
Variable l : list Z.
Hypothesis Hrange : forallb (fun t => (0 <=? t) && (t <? 2 ^ 63)) l = true.
Hypothesis Hcoarse : coarse (series_max (IntCol l)) = true.

Local Notation "'df'" := {| x_values := xs; y_values := IntCol l |}.
Local Notation "'mx'" := (series_max (IntCol l)).

Lemma coarse_step : step_of mx = NInt 1.
Proof. unfold step_of. by rewrite Hcoarse. Qed.

Lemma coarse_returns : ending (animate_plot df) = Returned.
Proof.
  apply run_returns. simpl. rewrite coarse_step.
  apply Forall_fmap, Forall_forall. intros t _. simpl.
  rewrite arange_int. eauto.
Qed.

Lemma coarse_sweeps_length : length (sweeps (animate_plot df)) = length l.
Proof.
  pose proof (run_ending df) as H. rewrite coarse_returns in H.
  simpl in H. by rewrite length_fmap in H.
Qed.

Lemma coarse_settle_all : settle mx <$> (NInt <$> l) = NInt <$> l.
Proof.
  apply list_eq. intros i. rewrite !list_lookup_fmap.
  destruct (l !! i) as [t|] eqn:Hi; simpl; [|done].
  f_equal. apply settle_int; [apply coarse_step|].
  by apply (int64_nonneg_lookup l Hrange i).
Qed.

Lemma coarse_final : heights (df_temp (animate_plot df)) = NInt <$> l.
Proof.
  rewrite run_final. simpl. rewrite coarse_sweeps_length.
  rewrite length_fmap, Nat.sub_diag. simpl. rewrite app_nil_r.
  rewrite take_ge by (rewrite length_fmap; lia).
  apply coarse_settle_all.
Qed.

(** Every frame: the rows swept hold their targets, the row being
    swept holds a count between 1 and its target, the others hold 0. *)
Lemma coarse_frame i s k f :
  sweeps (animate_plot df) !! i = Some s ->
  s !! k = Some f ->
  exists t,
    l !! i = Some t /\ Z.of_nat k < t
    /\ heights (drawn f)
       = (NInt <$> take i l) ++ NInt (Z.of_nat k + 1)
           :: replicate (length l - S i) (NInt 0).
Proof.
  intros Hs Hk.
  destruct (frame_heights df i s k f Hs Hk)
    as (target & values & v & Ht & Hr & Hv & _ & ->).
  simpl in *. rewrite coarse_step in *.
  rewrite list_lookup_fmap in Ht.
  destruct (l !! i) as [t|] eqn:Hi; [|done]. injection Ht as <-.
  rewrite arange_int in Hr. injection Hr as <-.
  rewrite list_lookup_fmap in Hv.
  destruct (seqZ 0 t !! k) as [z|] eqn:Hz; [|done]. injection Hv as <-.
  apply lookup_seqZ in Hz as [-> Hlt].
  pose proof (int64_nonneg_lookup l Hrange i t Hi) as Hb.
  exists t. split; [done|]. split; [lia|].
  rewrite length_fmap. f_equal.
  - transitivity (take i (settle mx <$> (NInt <$> l))).
    + by rewrite fmap_take.
    + rewrite coarse_settle_all. by rewrite fmap_take.
  - unfold py_add. rewrite wrap64_small by lia. f_equal.
Qed.

End CoarseIntegers.

Lemma num_leb_int a b : num_leb (NInt a) (NInt b) = true <-> a <= b.
Proof.
  unfold num_leb. simpl. destruct (a ?= b) eqn:E.
  - apply Z.compare_eq in E. split; [lia|done].
  - rewrite Z.compare_lt_iff in E. split; [lia|done].
  - rewrite Z.compare_gt_iff in E. split; [done|lia].
Qed.

Lemma num_eqb_int a : num_eqb (NInt a) (NInt a) = true.
Proof. unfold num_eqb. simpl. by rewrite Z.compare_refl. Qed.

Lemma equals_target_ints (l : list Z) : equals_target (NInt <$> l) (NInt <$> l).
Proof.
  unfold equals_target. induction l as [|z l IH]; simpl; constructor.
  - apply num_eqb_int.
  - exact IH.
Qed.

(** * Signs through the binary64 operations *)

Section Signs.

Lemma binary_round_aux_sign sx mx ex lx :
  has_sign sx (binary_round_aux prec emax sx mx ex lx).
Proof.
  unfold binary_round_aux.
  destruct (shr_fexp prec emax mx ex lx) as [mrs e'].
  destruct (shr_fexp prec emax _ e' loc_Exact) as [mrs' e''].
  destruct (shr_m mrs'); simpl; [done| |done].
  by destruct (e'' <=? emax - prec).
Qed.

Lemma Z2SF_sign z : has_sign (z <? 0) (Z2SF z).
Proof.
  unfold Z2SF, binary_normalize, binary_round.
  destruct z as [|p|p]; simpl; [done| |].
  - destruct (shl_align p 0 _) as [mz ez]. apply binary_round_aux_sign.
  - destruct (shl_align p 0 _) as [mz ez]. apply binary_round_aux_sign.
Qed.

(** Dividing by a positive finite value keeps the sign. *)
Lemma SFdiv_sign s x my ey :
  has_sign s x -> has_sign s (SFdiv prec emax x (S754_finite false my ey)).
Proof.
  destruct x as [sx|sx| |sx mx ex]; simpl; try done.
  - intros <-. by destruct sx.
  - intros <-. by destruct sx.
  - intros <-.
    destruct (SFdiv_core_binary prec emax (Z.pos mx) ex (Z.pos my) ey)
      as [[mz ez] lz].
    pose proof (binary_round_aux_sign (xorb sx false) mz ez lz) as H.
    by rewrite xorb_false_r in H at 1.
Qed.

Lemma SFsub_zero f : SFsub prec emax f (S754_zero false) = f.
Proof. by destruct f as [[]|[]| |]. Qed.

Lemma py_ceil_negative f n : has_sign true f -> py_ceil f = Ok n -> n <= 0.
Proof.
  destruct f as [sx|sx| |sx mx ex]; simpl; try done.
  - intros _ [= <-]. lia.
  - intros -> [= <-]. unfold signed, cond_Zopp.
    rewrite Z.opp_involutive.
    assert (0 <= Z.shiftl (Z.pos mx) ex) by (apply Z.shiftl_nonneg; lia).
    lia.
Qed.


(** The two steps [animate_plot] chooses between are positive finite
    values. *)
Lemma step_cases mx :
  step_of mx = NInt 1 \/ step_of mx = NFloat f_0_1.
Proof. unfold step_of. destruct (coarse mx); auto. Qed.

Lemma step_float mx :
  exists my ey, to_float (step_of mx) = S754_finite false my ey.
Proof.
  destruct (step_cases mx) as [-> | ->]; simpl.
  - by eexists _, _.
  - by eexists _, _.
Qed.

(** The quotient [numpy.arange] takes its length from, when the range
    is not an integer one. *)
Lemma target_minus_start target :
  well_formed target = true ->
  to_float (py_sub target (NInt 0)) = to_float target.
Proof.
  destruct target as [t|f]; simpl.
  - intros H. rewrite wrap64_small by lia. f_equal. lia.
  - intros _. apply SFsub_zero.
Qed.

End Signs.

(** * The claims about animate_plot *)

(** C1, as amended.  For every table whose numeric column holds
    non-negative integers with a maximum above 8, so that the step is the
    integer 1, [animate_plot] returns and every row of the working copy
    then equals that row of the input exactly. *)
Theorem coarse_integer_table_ends_on_targets (xs : list string) (l : list Z) :
  forallb (fun t => (0 <=? t) && (t <? 2 ^ 63)) l = true ->
  coarse (series_max (IntCol l)) = true ->
  ending (animate_plot {| x_values := xs; y_values := IntCol l |}) = Returned
  /\ heights (df_temp (animate_plot {| x_values := xs; y_values := IntCol l |}))
     = NInt <$> l
  /\ equals_target
       (heights (df_temp (animate_plot {| x_values := xs; y_values := IntCol l |})))
       (cells (IntCol l)).
Proof.
  intros Hrange Hcoarse.
  split; [by apply coarse_returns|].
  rewrite (coarse_final xs l Hrange Hcoarse).
  split; [done|]. apply equals_target_ints.
Qed.

(** The age table of the specification ends as {18-19: 5, 20-29: 12}. *)
Lemma ages_end_on_targets :
  forallb (fun t => (0 <=? t) && (t <? 2 ^ 63)) [5; 12] = true
  /\ coarse (series_max (IntCol [5; 12])) = true
  /\ ending (animate_plot ages) = Returned
  /\ heights (df_temp (animate_plot ages)) = [NInt 5; NInt 12].
Proof.
  split; [reflexivity|]. split; [reflexivity|].
  pose proof (coarse_integer_table_ends_on_targets
                (x_values ages) [5; 12] eq_refl eq_refl) as (H1 & H2 & _).
  split; [exact H1 | exact H2].
Defined.

(** C1 as stated fails on the unit table of the specification: the step
    is 0.1, and the thirtieth frame of "IT" writes 29 * 0.1 + 0.1, which
    in binary64 is 3.0000000000000004 and not 3. *)
Lemma units_miss_target :
  nonneg_column (y_values units) = true
  /\ heights (df_temp (animate_plot units))
     = [NFloat (S754_finite false 4503599627370496 (-51));
        NFloat (S754_finite false 6755399441055745 (-51))]
  /\ ~ equals_target (heights (df_temp (animate_plot units)))
         (cells (y_values units)).
Proof.
  split; [reflexivity|].
  assert (Hh : heights (df_temp (animate_plot units))
               = [NFloat (S754_finite false 4503599627370496 (-51));
                  NFloat (S754_finite false 6755399441055745 (-51))])
    by (vm_compute; reflexivity).
  split; [exact Hh|]. rewrite Hh. intros H.
  pose proof (Forall2_lookup_lr _ _ _ 1%nat _ _ H eq_refl eq_refl) as H1.
  vm_compute in H1. discriminate.
Qed.

(** A fractional target is overshot with the coarse step too: 8.5 is
    swept in 9 frames and ends at 9. *)
Lemma half_is_overshot :
  frames_of_row (animate_plot half) 0 = 9%nat
  /\ heights (df_temp (animate_plot half)) = [NFloat (Z2SF 9)]
  /\ ~ equals_target (heights (df_temp (animate_plot half)))
         (cells (y_values half)).
Proof.
  split; [reflexivity|].
  assert (Hh : heights (df_temp (animate_plot half)) = [NFloat (Z2SF 9)])
    by (vm_compute; reflexivity).
  split; [exact Hh|]. rewrite Hh. intros H.
  pose proof (Forall2_lookup_lr _ _ _ 0%nat _ _ H eq_refl eq_refl) as H1.
  vm_compute in H1. discriminate.
Qed.

(** C2, as amended.  For every table whose numeric column holds
    non-negative integers with a maximum above 8, every row's displayed
    value lies between 0 and its target in every frame and at the end. *)
Theorem coarse_integer_table_stays_clamped (xs : list string) (l : list Z) :
  forallb (fun t => (0 <=? t) && (t <? 2 ^ 63)) l = true ->
  coarse (series_max (IntCol l)) = true ->
  (forall i s k f,
      sweeps (animate_plot {| x_values := xs; y_values := IntCol l |}) !! i
        = Some s ->
      s !! k = Some f ->
      clamped (heights (drawn f)) (cells (IntCol l)))
  /\ clamped
       (heights (df_temp (animate_plot {| x_values := xs; y_values := IntCol l |})))
       (cells (IntCol l)).
Proof.
  intros Hrange Hcoarse. split.
  - intros i s k f Hs Hk.
    destruct (coarse_frame xs l Hrange Hcoarse i s k f Hs Hk)
      as (t & Hi & Hlt & ->).
    pose proof (lookup_lt_Some _ _ _ Hi) as Hil.
    apply Forall2_same_length_lookup. split.
    { simpl. rewrite length_app, !length_fmap, length_take. simpl.
      rewrite length_replicate. lia. }
    intros j d tj Hd Htj. simpl in Htj.
    rewrite list_lookup_fmap in Htj.
    destruct (l !! j) as [z|] eqn:Hj; [|done]. injection Htj as <-.
    pose proof (int64_nonneg_lookup l Hrange j z Hj) as Hz.
    destruct (decide (j < i)%nat) as [Hlt'|Hge].
    + rewrite lookup_app_l in Hd by (rewrite length_fmap, length_take; lia).
      rewrite list_lookup_fmap, lookup_take_lt, Hj in Hd by lia.
      injection Hd as <-. rewrite !num_leb_int. lia.
    + rewrite lookup_app_r in Hd by (rewrite length_fmap, length_take; lia).
      rewrite length_fmap, length_take in Hd.
      replace (i `min` length l)%nat with i in Hd by lia.
      destruct (j - i)%nat as [|d'] eqn:Hji; simpl in Hd.
      * injection Hd as <-. assert (j = i) by lia. subst j.
        rewrite Hi in Hj. injection Hj as <-.
        pose proof (int64_nonneg_lookup l Hrange i t Hi).
        rewrite !num_leb_int. lia.
      * apply lookup_replicate in Hd as [-> _]. rewrite !num_leb_int. lia.
  - rewrite (coarse_final xs l Hrange Hcoarse).
    apply Forall2_same_length_lookup. split; [done|].
    intros j d tj Hd Htj. simpl in Htj. rewrite Hd in Htj. injection Htj as <-.
    rewrite list_lookup_fmap in Hd.
    destruct (l !! j) as [z|] eqn:Hj; [|done]. injection Hd as <-.
    pose proof (int64_nonneg_lookup l Hrange j z Hj) as Hz.
    rewrite !num_leb_int. lia.
Qed.

(** On the age table the first frame draws 1 and 0 against 5 and 12. *)
Lemma ages_stay_clamped :
  forallb (fun t => (0 <=? t) && (t <? 2 ^ 63)) [5; 12] = true
  /\ coarse (series_max (IntCol [5; 12])) = true
  /\ clamped [NInt 1; NInt 0] [NInt 5; NInt 12]
  /\ clamped (heights (df_temp (animate_plot ages))) [NInt 5; NInt 12].
Proof.
  split; [reflexivity|]. split; [reflexivity|].
  pose proof (coarse_integer_table_stays_clamped
                (x_values ages) [5; 12] eq_refl eq_refl) as [H1 H2].
  split; [|exact H2].
  exact (H1 0%nat _ 0%nat _ eq_refl eq_refl).
Defined.

(** C2 as stated fails on the table the specification itself names: one
    row with target 0.05.  The step is 0.1 and the only frame draws 0.1,
    above the target. *)
Lemma tiny_target_overshoots :
  nonneg_column (y_values tiny) = true
  /\ exists s f,
       sweeps (animate_plot tiny) !! 0%nat = Some s
       /\ s !! 0%nat = Some f
       /\ heights (drawn f) = [NFloat f_0_1]
       /\ ~ clamped (heights (drawn f)) (cells (y_values tiny)).
Proof.
  split; [reflexivity|].
  eexists _, _. split; [vm_compute; reflexivity|].
  split; [reflexivity|]. split; [reflexivity|].
  intros H.
  pose proof (Forall2_lookup_lr _ _ _ 0%nat _ _ H eq_refl eq_refl) as [_ H1].
  vm_compute in H1. discriminate.
Qed.



(** C5.  In every frame of the sweep of row [i] the labels are those of
    the input, in order; the rows before [i] hold what their own sweep
    left, the rows after [i] hold 0, and from one frame to the next no
    row but [i] changes.  The chart left at the end has the same labels
    and the same settled rows. *)
Theorem frame_changes_one_row (df : DataFrame) (i k : nat)
    (s : list frame) (f : frame) :
  sweeps (animate_plot df) !! i = Some s ->
  s !! k = Some f ->
  labels (drawn f) = x_values df
  /\ labels (df_temp (animate_plot df)) = x_values df
  /\ length (heights (drawn f)) = length (cells (y_values df))
  /\ length (heights (df_temp (animate_plot df))) = length (cells (y_values df))
  /\ (forall j, (j < i)%nat ->
        heights (drawn f) !! j = Some (left_by_sweep (animate_plot df) j)
        /\ heights (df_temp (animate_plot df)) !! j
           = Some (left_by_sweep (animate_plot df) j))
  /\ (forall j, (i < j < length (cells (y_values df)))%nat ->
        heights (drawn f) !! j = Some (NInt 0))
  /\ (forall f' j, s !! S k = Some f' -> j <> i ->
        heights (drawn f') !! j = heights (drawn f) !! j).
Proof.
  intros Hs Hk.
  pose proof (lookup_lt_Some _ _ _ Hs) as Hlen.
  pose proof (run_sweeps_bound df) as Hbound.
  destruct (frame_heights df i s k f Hs Hk)
    as (target & values & v & Ht & Hr & Hv & _ & ->).
  pose proof (lookup_lt_Some _ _ _ Ht) as Hi. simpl.
  split; [done|]. split; [apply run_labels|].
  split.
  { rewrite length_app, length_fmap, length_take. simpl.
    rewrite length_replicate. lia. }
  split.
  { rewrite run_final, length_app, length_fmap, length_take, length_replicate.
    lia. }
  split.
  { intros j Hj.
    destruct (lookup_lt_is_Some_2 (cells (y_values df)) j) as [tj Htj]; [lia|].
    rewrite (left_by_sweep_settle df j tj) by (done || lia).
    split.
    - rewrite lookup_app_l by (rewrite length_fmap, length_take; lia).
      by rewrite list_lookup_fmap, lookup_take_lt, Htj by lia.
    - rewrite final_height by lia. by rewrite Htj. }
  split.
  { intros j Hj.
    rewrite lookup_app_r; rewrite length_fmap, length_take; [|lia].
    replace (i `min` length (cells (y_values df)))%nat with i by lia.
    destruct (j - i)%nat as [|d] eqn:Hd; [lia|]. simpl.
    apply lookup_replicate_2. lia. }
  intros f' j Hk' Hne.
  destruct (frame_heights df i s (S k) f' Hs Hk')
    as (target' & values' & v' & Ht' & Hr' & Hv' & _ & ->).
  simpl.
  destruct (decide (j < i)%nat) as [Hlt|Hge].
  - by rewrite !lookup_app_l by (rewrite length_fmap, length_take; lia).
  - rewrite !lookup_app_r by (rewrite length_fmap, length_take; lia).
    rewrite length_fmap, length_take.
    replace (i `min` length (cells (y_values df)))%nat with i by lia.
    destruct (j - i)%nat as [|d] eqn:Hd; [lia|]. done.
Qed.

(** On the age table, while "20-29" is swept "18-19" stays at 5. *)
Lemma ages_second_sweep_keeps_first_row :
  exists s f,
    sweeps (animate_plot ages) !! 1%nat = Some s
    /\ s !! 3%nat = Some f
    /\ labels (drawn f) = x_values ages
    /\ heights (drawn f) !! 0%nat = Some (NInt 5)
    /\ left_by_sweep (animate_plot ages) 0 = NInt 5.
Proof.
  eexists _, _. split; [vm_compute; reflexivity|]. split; [reflexivity|].
  destruct (frame_changes_one_row ages 1 3 _ _ eq_refl eq_refl)
    as (H1 & _ & _ & _ & H2 & _).
  split; [exact H1|]. split; [|reflexivity].
  destruct (H2 0%nat ltac:(lia)) as [H3 _]. exact H3.
Defined.

(** * Which targets make a range non-empty *)

Section RangeSigns.

(** A range that is not an integer one takes its length from the
    quotient of the target by the step. *)
Lemma arange_from_quotient target stp :
  well_formed target = true ->
  (forall t s, target = NInt t -> stp <> NInt s) ->
  arange (NInt 0) target stp
  = match py_ceil (SFdiv prec emax (to_float target) (to_float stp)) with
    | Raise e => Raise e
    | Ok n =>
        Ok ((fun i => NFloat (arange_item (S754_zero false)
                                (to_float (py_add (NInt 0) stp)) i))
              <$> seqZ 0 n)
    end.
Proof.
  intros Hwf Hmixed. unfold arange, py_truediv.
  rewrite (target_minus_start target Hwf).
  destruct target as [t|f], stp as [s|g]; try done.
  by destruct (Hmixed t s eq_refl).
Qed.

Lemma quotient_ceil_positive x my ey n :
  py_ceil (SFdiv prec emax x (S754_finite false my ey)) = Ok n ->
  0 < n ->
  exists m e, x = S754_finite false m e.
Proof.
  intros Hc Hn. destruct x as [sx|sx| |[] mx ex]; try done.
  - simpl in Hc. injection Hc as <-. lia.
  - pose proof (SFdiv_sign true (S754_finite true mx ex) my ey eq_refl) as Hs.
    pose proof (py_ceil_negative _ _ Hs Hc). lia.
  - eauto.
Qed.

Lemma Z2SF_finite_positive z m e : Z2SF z = S754_finite false m e -> 0 < z.
Proof.
  intros H. pose proof (Z2SF_sign z) as Hs. rewrite H in Hs. simpl in Hs.
  destruct z; [done|lia|done].
Qed.

(** Frames are drawn only for a strictly positive target. *)
Lemma arange_nonempty_positive mx target v vs :
  well_formed target = true ->
  arange (NInt 0) target (step_of mx) = Ok (v :: vs) ->
  positive_num target = true.
Proof.
  intros Hwf Hr.
  destruct (step_float mx) as (my & ey & Hstep).
  assert (Hq : forall n,
    py_ceil (SFdiv prec emax (to_float target) (to_float (step_of mx)))
      = Ok n -> 0 < n -> positive_num target = true).
  { intros n Hc Hn. rewrite Hstep in Hc.
    destruct (quotient_ceil_positive _ _ _ _ Hc Hn) as (m & e & Hx).
    destruct target as [t|f]; simpl in *.
    - apply Z.ltb_lt. by apply (Z2SF_finite_positive t m e).
    - by subst f. }
  destruct target as [t|f]; destruct (step_cases mx) as [Hs|Hs].
  - rewrite Hs, arange_int in Hr. injection Hr as Hr.
    simpl. apply Z.ltb_lt. destruct (decide (0 < t)) as [|Hn]; [done|].
    rewrite seqZ_nil in Hr by lia. done.
  - rewrite arange_from_quotient in Hr; [|done|by rewrite Hs].
    destruct (py_ceil _) as [n|] eqn:Hc; [|done]. injection Hr as Hr.
    apply (Hq n eq_refl). destruct (decide (0 < n)) as [|Hn]; [done|].
    rewrite seqZ_nil in Hr by lia. done.
  - rewrite arange_from_quotient in Hr; [|done..].
    destruct (py_ceil _) as [n|] eqn:Hc; [|done]. injection Hr as Hr.
    apply (Hq n eq_refl). destruct (decide (0 < n)) as [|Hn]; [done|].
    rewrite seqZ_nil in Hr by lia. done.
  - rewrite arange_from_quotient in Hr; [|done..].
    destruct (py_ceil _) as [n|] eqn:Hc; [|done]. injection Hr as Hr.
    apply (Hq n eq_refl). destruct (decide (0 < n)) as [|Hn]; [done|].
    rewrite seqZ_nil in Hr by lia. done.
Qed.

Lemma positive_not_below target :
  positive_num target = true ->
  negative_num target = false /\ is_zero target = false.
Proof.
  destruct target as [t|f]; simpl.
  - intros H. apply Z.ltb_lt in H. split; [apply Z.ltb_ge|apply Z.eqb_neq]; lia.
  - by destruct f as [[]|[]| |[] ? ?].
Qed.

(** A target that is negative or zero gives no value to sweep. *)
Lemma arange_nonpositive_empty mx target values :
  well_formed target = true ->
  negative_num target = true \/ is_zero target = true ->
  arange (NInt 0) target (step_of mx) = Ok values ->
  values = [].
Proof.
  intros Hwf Hneg Hr. destruct values as [|v vs]; [done|].
  apply arange_nonempty_positive, positive_not_below in Hr as [H1 H2];
    [|done].
  destruct Hneg; congruence.
Qed.


End RangeSigns.

(** * The maximum of a column *)

Ltac compare_cases :=
  repeat match goal with
  | H : context [Z.compare ?a ?b] |- _ =>
      destruct (Z.compare_spec a b); simpl in H; try discriminate H
  | |- context [Z.compare ?a ?b] =>
      destruct (Z.compare_spec a b); simpl
  | H : context [Pos.compare ?a ?b] |- _ =>
      destruct (Pos.compare_spec a b); simpl in H; try discriminate H
  | |- context [Pos.compare ?a ?b] =>
      destruct (Pos.compare_spec a b); simpl
  end.

Section Maximum.

Lemma fold_max_ge (l : list Z) : forall z x,
  x = z \/ In x l -> x <= fold_left Z.max l z.
Proof.
  induction l as [|y l IH]; intros z x Hx; simpl.
  - destruct Hx as [->|[]]. lia.
  - assert (Hstep : forall w, w <= Z.max z y ->
              w <= fold_left Z.max l (Z.max z y)).
    { intros w Hw. transitivity (Z.max z y); [done|]. apply IH. by left. }
    destruct Hx as [->|[<-|Hx]].
    + apply Hstep. lia.
    + apply Hstep. lia.
    + apply IH. by right.
Qed.

Lemma series_max_int (l : list Z) i t :
  l !! i = Some t -> exists m, series_max (IntCol l) = NInt m /\ t <= m.
Proof.
  intros Hi. destruct l as [|z l]; [done|].
  exists (fold_left Z.max l z). split; [done|].
  apply fold_max_ge. destruct i as [|i]; simpl in Hi.
  - left. by injection Hi.
  - right. apply list_elem_of_In. by apply (list_elem_of_lookup_2 l i).
Qed.

(** [<] on binary64 is transitive, and total on values that are not
    NaN. *)
Lemma SFltb_trans x a b :
  SFltb x a = true -> SFltb a b = true -> SFltb x b = true.
Proof.
  unfold SFltb.
  destruct x as [[]|[]| |[] mx ex], a as [[]|[]| |[] ma ea],
    b as [[]|[]| |[] mb eb]; simpl; try done;
    change (Pos.compare_cont Eq) with Pos.compare;
    intros H1 H2; compare_cases; subst; try done; try lia.
Qed.

Lemma SFltb_le_trans x a b :
  is_nan a = false ->
  SFltb x b = true -> SFltb a b = false -> SFltb x a = true.
Proof.
  unfold SFltb.
  destruct x as [[]|[]| |[] mx ex], a as [[]|[]| |[] ma ea],
    b as [[]|[]| |[] mb eb]; simpl; try done;
    change (Pos.compare_cont Eq) with Pos.compare;
    intros _ H1 H2; compare_cases; subst; try done; try lia.
Qed.

Lemma fmax_above x a b :
  is_nan a = false -> is_nan b = false ->
  SFltb x a = true \/ SFltb x b = true ->
  SFltb x (fmax a b) = true.
Proof.
  intros Ha Hb H. unfold fmax. destruct (SFltb a b) eqn:E.
  - destruct H as [H|H]; [|done]. by apply (SFltb_trans x a b).
  - destruct H as [H|H]; [done|]. by apply (SFltb_le_trans x a b).
Qed.

Lemma fmax_not_nan a b :
  is_nan a = false -> is_nan b = false -> is_nan (fmax a b) = false.
Proof. intros Ha Hb. unfold fmax. by destruct (SFltb a b). Qed.

Lemma fold_fmax_above x (l : list spec_float) : forall a,
  is_nan a = false ->
  Forall (fun y => is_nan y = false) l ->
  SFltb x a = true \/ (exists y, In y l /\ SFltb x y = true) ->
  SFltb x (fold_left fmax l a) = true.
Proof.
  induction l as [|b l IH]; intros a Ha Hl H; simpl.
  - destruct H as [H|(y & [] & _)]. done.
  - inversion Hl as [|? ? Hb Hl']; subst.
    apply IH; [by apply fmax_not_nan|done|].
    destruct H as [H|(y & [<-|Hy] & Hp)].
    + left. apply fmax_above; auto.
    + left. apply fmax_above; auto.
    + right. eauto.
Qed.

(** A cell above [x] puts the maximum of a binary64 column above [x]. *)
Lemma float_max_above x (l : list spec_float) i f :
  l !! i = Some f ->
  SFltb x f = true ->
  exists m, series_max (FloatCol l) = NFloat m /\ SFltb x m = true.
Proof.
  intros Hi Hp.
  assert (Hin : In f (List.filter (fun f => negb (is_nan f)) l)).
  { apply filter_In. split.
    - apply list_elem_of_In. by apply (list_elem_of_lookup_2 l i).
    - destruct f; try done. by destruct x as [[]|[]| |[] ? ?]. }
  assert (Hall : Forall (fun y => is_nan y = false)
                   (List.filter (fun f => negb (is_nan f)) l)).
  { apply Forall_forall. intros y Hy. apply list_elem_of_In in Hy.
    apply filter_In in Hy as [_ Hy]. by destruct (is_nan y). }
  unfold series_max.
  destruct (List.filter (fun f => negb (is_nan f)) l) as [|a fs]; [done|].
  inversion Hall as [|? ? Ha Hfs]; subst.
  eexists. split; [done|].
  apply fold_fmax_above; [done..|].
  destruct Hin as [<-|Hin]; [by left|right; eauto].
Qed.

(** A strictly positive cell makes the maximum strictly positive. *)
Lemma series_max_positive (c : column) i T :
  cells c !! i = Some T ->
  positive_num T = true ->
  positive_num (series_max c) = true.
Proof.
  destruct c as [l|l]; simpl; rewrite list_lookup_fmap.
  - destruct (l !! i) as [t|] eqn:Hi; [|done]. intros [= <-] Hp. simpl in Hp.
    destruct (series_max_int l i t Hi) as (m & -> & Hm). simpl.
    apply Z.ltb_lt in Hp. apply Z.ltb_lt. lia.
  - destruct (l !! i) as [f|] eqn:Hi; [|done]. intros [= <-] Hp. simpl in Hp.
    by destruct (float_max_above _ l i f Hi Hp) as (m & -> & Hm).
Qed.

(** With the step 0.1 no cell of a binary64 column exceeds 8. *)
Lemma fine_float_cell (l : list spec_float) i f :
  coarse (series_max (FloatCol l)) = false ->
  l !! i = Some f ->
  SFltb (Z2SF 8) f = false.
Proof.
  intros Hc Hi. destruct (SFltb (Z2SF 8) f) eqn:E; [|done].
  destruct (float_max_above _ l i f Hi E) as (m & Hm & Hgt).
  rewrite Hm in Hc. unfold coarse, py_gt_int, SFgtb, threshold in Hc.
  congruence.
Qed.

End Maximum.

Lemma forallb_lookup {A} (P : A -> bool) (l : list A) i x :
  forallb P l = true -> l !! i = Some x -> P x = true.
Proof.
  rewrite forallb_forall. intros H Hi.
  apply H, list_elem_of_In. by apply (list_elem_of_lookup_2 _ i).
Qed.

Lemma well_formed_lookup (c : column) i T :
  well_formed_column c = true -> cells c !! i = Some T -> well_formed T = true.
Proof. apply forallb_lookup. Qed.

(** C9.  A frame is drawn, and [step_time / max] evaluated, only in the
    sweep of a row whose target is strictly positive; the maximum of the
    column, the divisor, is then strictly positive too.  A table of zeros
    draws no frame and never sleeps. *)
Theorem sleep_divides_by_a_positive_maximum (df : DataFrame) :
  well_formed_column (y_values df) = true ->
  nonneg_column (y_values df) = true ->
  (forall i s k f,
      sweeps (animate_plot df) !! i = Some s ->
      s !! k = Some f ->
      (exists T, cells (y_values df) !! i = Some T /\ positive_num T = true)
      /\ positive_num (series_max (y_values df)) = true
      /\ slept f = py_truediv (NFloat (step_time_of (series_max (y_values df))))
                     (series_max (y_values df)))
  /\ (zero_column (y_values df) = true ->
      concat (sweeps (animate_plot df)) = []).
Proof.
  intros Hwf _. split.
  - intros i s k f Hs Hk.
    destruct (frame_heights df i s k f Hs Hk)
      as (T & values & v & Ht & Hr & Hv & _ & ->).
    assert (Hpos : positive_num T = true).
    { destruct values as [|w ws]; [done|].
      apply (arange_nonempty_positive (series_max (y_values df)) T w ws);
        [|done].
      by apply (well_formed_lookup (y_values df) i). }
    split; [eauto|]. split; [|done].
    by apply (series_max_positive (y_values df) i T).
  - intros Hzero. apply concat_nil_Forall, Forall_lookup.
    intros i s Hs.
    destruct (run_sweep df i s Hs) as (T & values & Ht & Hr & ->).
    rewrite (arange_nonpositive_empty (series_max (y_values df)) T values);
      [done| | |done].
    + by apply (well_formed_lookup (y_values df) i).
    + right. unfold zero_column in Hzero. rewrite forallb_forall in Hzero.
      apply Hzero, list_elem_of_In. by apply (list_elem_of_lookup_2 _ i).
Qed.

(** On the age table every frame sleeps 0.3 / 12. *)
Lemma ages_sleep_is_defined :
  well_formed_column (y_values ages) = true
  /\ nonneg_column (y_values ages) = true
  /\ exists s f,
       sweeps (animate_plot ages) !! 1%nat = Some s
       /\ s !! 0%nat = Some f
       /\ positive_num (series_max (y_values ages)) = true
       /\ slept f = py_truediv (NFloat f_0_3) (NInt 12).
Proof.
  split; [reflexivity|]. split; [reflexivity|].
  eexists _, _. split; [vm_compute; reflexivity|]. split; [reflexivity|].
  destruct (proj1 (sleep_divides_by_a_positive_maximum ages eq_refl eq_refl)
              1%nat _ 0%nat _ eq_refl eq_refl) as (_ & H1 & H2).
  split; [exact H1 | exact H2].
Defined.



(** * The claims about the filters *)

Lemma filter_eqb_In (sel : string) (proj : employee -> string)
    (df : list employee) (r : employee) :
  In r (List.filter (fun r => String.eqb (proj r) sel) df)
  <-> In r df /\ proj r = sel.
Proof. rewrite filter_In. by rewrite String.eqb_eq. Qed.

(** C7.  Choosing "All" leaves the table as it is; choosing any other
    entry keeps exactly the rows whose Hometown is that entry, in their
    order. *)
Theorem hometown_filter_selects (selectbox_hometown : string)
    (df : list employee) :
  filter_hometown "All" df = df
  /\ (selectbox_hometown <> "All"%string ->
      filter_hometown selectbox_hometown df
      = List.filter (fun r => String.eqb (Hometown r) selectbox_hometown) df
      /\ (forall r, In r (filter_hometown selectbox_hometown df)
                    <-> In r df /\ Hometown r = selectbox_hometown)
      /\ df_employees_filtred "" selectbox_hometown "All" df
         = Some (filter_hometown selectbox_hometown df)).
Proof.
  split; [done|]. intros Hsel.
  assert (Hf : filter_hometown selectbox_hometown df
               = List.filter
                   (fun r => String.eqb (Hometown r) selectbox_hometown) df).
  { unfold filter_hometown.
    destruct (String.eqb selectbox_hometown "All") eqn:E; [|done].
    by apply String.eqb_eq in E. }
  split; [exact Hf|]. split; [|done].
  intros r. rewrite Hf. apply filter_eqb_In.
Qed.

(** Choosing "Franklin" keeps the first and the third row of the staff
    table. *)
Lemma franklin_is_selected :
  "Franklin"%string <> "All"%string
  /\ filter_hometown "Franklin" staff
     = List.filter (fun r => String.eqb (Hometown r) "Franklin") staff
  /\ df_employees_filtred "" "Franklin" "All" staff
     = Some (filter_hometown "Franklin" staff).
Proof.
  assert (Hne : "Franklin"%string <> "All"%string) by discriminate.
  split; [exact Hne|].
  destruct (proj2 (hometown_filter_selects "Franklin" staff) Hne)
    as (H1 & _ & H2).
  split; [exact H1 | exact H2].
Defined.

(** C8 at the text ".": the pattern matches any character, so the
    filter keeps every row with a non-empty Employee_ID, although no
    Employee_ID of the staff table contains a dot. *)
Theorem dot_keeps_every_employee :
  df_employees_filtred "." "All" "All" staff = Some staff
  /\ Forall (fun r => ci_substring "." (Employee_ID r) = false) staff.
Proof. split; [reflexivity|]. repeat constructor. Qed.





Lemma empty_text_filters_nothing (df : list employee) :
  filter_id "" df = Some df.
Proof. done. Qed.

(** * Binary64 division without overflow *)

Section Rounding.

Lemma digits2_pos_bounds p :
  2 ^ (Z.pos (digits2_pos p) - 1) <= Z.pos p < 2 ^ Z.pos (digits2_pos p).
Proof.
  induction p as [p IH|p IH|]; simpl digits2_pos.
  - rewrite Pos2Z.inj_succ.
    replace (Z.succ (Z.pos (digits2_pos p)) - 1) with (Z.succ (Z.pos (digits2_pos p) - 1)) by lia.
    rewrite !Z.pow_succ_r by lia. lia.
  - rewrite Pos2Z.inj_succ.
    replace (Z.succ (Z.pos (digits2_pos p)) - 1) with (Z.succ (Z.pos (digits2_pos p) - 1)) by lia.
    rewrite !Z.pow_succ_r by lia. lia.
  - simpl. lia.
Qed.

Lemma Zdigits2_nonneg m : 0 <= Zdigits2 m.
Proof. destruct m; simpl; lia. Qed.

Lemma Zdigits2_bound m : 0 <= m -> m < 2 ^ Zdigits2 m.
Proof.
  destruct m as [|p|p]; simpl; [lia| |lia]. intros _. apply digits2_pos_bounds.
Qed.

Lemma Zdigits2_le m k : 0 <= m -> 0 <= k -> m < 2 ^ k -> Zdigits2 m <= k.
Proof.
  destruct m as [|p|p]; simpl; [lia| |lia]. intros _ Hk Hm.
  pose proof (digits2_pos_bounds p) as [Hlo _].
  destruct (Z_le_gt_dec (Z.pos (digits2_pos p)) k) as [|Hgt]; [done|].
  assert (2 ^ k <= 2 ^ (Z.pos (digits2_pos p) - 1)) by (apply Z.pow_le_mono_r; lia).
  lia.
Qed.

Lemma shr_1_m mrs : 0 <= shr_m mrs -> shr_m (shr_1 mrs) = shr_m mrs / 2.
Proof.
  destruct mrs as [m r s]. cbn [shr_m]. intros Hm.
  destruct m as [|[p|p|]|p]; cbn [shr_1 shr_m]; try done.
  - apply (Z.div_unique_pos _ _ _ 1); lia.
  - apply (Z.div_unique_pos _ _ _ 0); lia.
Qed.

Lemma iter_pos_shr_m p : forall mrs,
  0 <= shr_m mrs ->
  shr_m (SpecFloat.iter_pos shr_1 p mrs) = shr_m mrs / 2 ^ Z.pos p.
Proof.
  assert (Hnn : forall a b, 0 <= a -> 0 < b -> 0 <= a / b)
    by (intros; apply Z.div_pos; lia).
  induction p as [p IH|p IH|]; intros mrs Hm; simpl SpecFloat.iter_pos.
  - rewrite IH, IH, shr_1_m; try done.
    + rewrite !Z.div_div by lia. f_equal.
      rewrite Pos2Z.inj_xI. rewrite <- !Z.pow_add_r by lia. 
      replace (2 * Z.pos p + 1) with (1 + Z.pos p + Z.pos p) by lia.
      rewrite !Z.pow_add_r by lia. lia.
    + rewrite shr_1_m by done. apply Hnn; lia.
    + rewrite IH, shr_1_m by (rewrite ?shr_1_m; try apply Hnn; lia).
      apply Hnn; [apply Hnn; lia|]. lia.
  - rewrite IH, IH; try done.
    + rewrite !Z.div_div by lia. f_equal.
      rewrite Pos2Z.inj_xO. rewrite <- !Z.pow_add_r by lia. f_equal. lia.
    + rewrite IH by done. apply Hnn; lia.
  - rewrite shr_1_m by done. done.
Qed.

Lemma shr_spec mrs e n :
  0 <= shr_m mrs ->
  shr_m (shr mrs e n).1 = shr_m mrs / 2 ^ Z.max n 0
  /\ (shr mrs e n).2 = e + Z.max n 0.
Proof.
  intros Hm. destruct n as [|p|p]; simpl.
  - rewrite Z.div_1_r. lia.
  - rewrite iter_pos_shr_m by done. split; [done|lia].
  - rewrite Z.div_1_r. lia.
Qed.

Lemma shr_record_of_loc_m m l : shr_m (shr_record_of_loc m l) = m.
Proof. by destruct l as [|[]]. Qed.

Lemma round_nearest_even_range m l :
  m <= round_nearest_even m l <= m + 1.
Proof.
  destruct l as [|[]]; simpl; try lia. destruct (Z.even m); lia.
Qed.

Lemma shr_fexp_spec m e l :
  0 <= m ->
  shr_m (shr_fexp prec emax m e l).1
    = m / 2 ^ Z.max (fexp prec emax (Zdigits2 m + e) - e) 0
  /\ (shr_fexp prec emax m e l).2
     = e + Z.max (fexp prec emax (Zdigits2 m + e) - e) 0.
Proof.
  intros Hm. unfold shr_fexp.
  pose proof (shr_spec (shr_record_of_loc m l) e
                (fexp prec emax (Zdigits2 m + e) - e)) as H.
  rewrite shr_record_of_loc_m in H. by apply H.
Qed.

Lemma div_pow2_bound m d n :
  0 <= m -> 0 <= d -> 0 <= n -> m < 2 ^ d -> m / 2 ^ n < 2 ^ Z.max (d - n) 0.
Proof.
  intros Hm Hd Hn Hlt.
  assert (0 < 2 ^ n) by (apply Z.pow_pos_nonneg; lia).
  destruct (Z_le_gt_dec n d) as [Hle|Hgt].
  - rewrite Z.max_l by lia. apply Z.div_lt_upper_bound; [done|].
    rewrite <- Z.pow_add_r by lia. by replace (n + (d - n)) with d by lia.
  - rewrite Z.max_r by lia. rewrite Z.div_small; [simpl; lia|].
    split; [done|]. eapply Z.lt_le_trans; [exact Hlt|].
    apply Z.pow_le_mono_r; lia.
Qed.

(** Rounding a non-negative mantissa whose value lies below 2^1023 does
    not overflow. *)
Lemma binary_round_aux_in_range sx mz ez lz :
  0 <= mz -> ez <= 971 -> Zdigits2 mz + ez <= 1023 ->
  match binary_round_aux prec emax sx mz ez lz with
  | S754_zero _ | S754_finite _ _ _ => True
  | _ => False
  end.
Proof.
  intros Hm He Hd. unfold binary_round_aux.
  pose proof (shr_fexp_spec mz ez lz Hm) as [Hm1 He1].
  destruct (shr_fexp prec emax mz ez lz) as [mrs1 e1]. simpl in Hm1, He1.
  pose proof (round_nearest_even_range (shr_m mrs1) (loc_of_shr_record mrs1))
    as Hr.
  set (m2 := round_nearest_even (shr_m mrs1) (loc_of_shr_record mrs1)) in *.
  pose proof (Zdigits2_nonneg mz) as Hdz.
  pose proof (Zdigits2_bound mz Hm) as Hbz.
  set (n1 := Z.max (fexp prec emax (Zdigits2 mz + ez) - ez) 0) in *.
  assert (Hn1 : 0 <= n1) by lia.
  pose proof (div_pow2_bound mz (Zdigits2 mz) n1 Hm Hdz Hn1 Hbz) as Hb1.
  rewrite <- Hm1 in Hb1.
  assert (Hm1' : 0 <= shr_m mrs1).
  { rewrite Hm1. apply Z.div_pos; [done|]. apply Z.pow_pos_nonneg; lia. }
  assert (Hm2 : 0 <= m2) by lia.
  assert (Hd2 : Zdigits2 m2 <= Z.max (Zdigits2 mz - n1) 0 + 1).
  { apply Zdigits2_le; [done|lia|].
    rewrite Z.pow_add_r by lia. simpl (2 ^ 1). lia. }
  pose proof (shr_fexp_spec m2 e1 loc_Exact Hm2) as [Hm3 He3].
  destruct (shr_fexp prec emax m2 e1 loc_Exact) as [mrs2 e2].
  simpl in Hm3, He3.
  assert (Hm3' : 0 <= shr_m mrs2).
  { rewrite Hm3. apply Z.div_pos; [done|]. apply Z.pow_pos_nonneg; lia. }
  destruct (shr_m mrs2) as [|p|p]; [done| |lia].
  assert (Hle : e2 <= emax - prec).
  { subst e2 e1 n1. unfold fexp, emin, prec, emax in *. lia. }
  apply Z.leb_le in Hle. by rewrite Hle.
Qed.

Lemma valid_mantissa_bound m e :
  bounded prec emax m e = true -> Z.pos m < 2 ^ 53 /\ -1074 <= e <= 971.
Proof.
  unfold bounded, canonical_mantissa, fexp, emin, prec, emax.
  intros H. apply andb_true_iff in H as [Hc Hb].
  apply Z.eqb_eq in Hc. apply Z.leb_le in Hb.
  pose proof (digits2_pos_bounds m) as [_ Hhi].
  split; [|lia].
  eapply Z.lt_le_trans; [exact Hhi|]. apply Z.pow_le_mono_r; lia.
Qed.

(** Dividing a value whose exponent is at most 900 by 0.1 does not
    overflow. *)
Lemma SFdiv_tenth_in_range s m e :
  bounded prec emax m e = true -> e <= 900 ->
  match SFdiv prec emax (S754_finite s m e) f_0_1 with
  | S754_zero _ | S754_finite _ _ _ => True
  | _ => False
  end.
Proof.
  intros Hv He. apply valid_mantissa_bound in Hv as [Hm Hrange].
  unfold f_0_1. cbn [SFdiv]. unfold SFdiv_core_binary.
  set (e' := Z.min _ _).
  set (sh := e - -56 - e').
  assert (Hsh : 0 <= sh) by (subst sh e'; lia).
  set (m' := match sh with Z.pos _ => Z.shiftl (Z.pos m) sh | 0 => Z.pos m | Z.neg _ => 0 end).
  assert (Hm' : 0 <= m' < 2 ^ (53 + sh)).
  { subst m'. destruct sh as [|p|p] eqn:Hs; [simpl; lia| |lia].
    rewrite Z.shiftl_mul_pow2 by lia. rewrite Z.pow_add_r by lia.
    assert (0 < 2 ^ Z.pos p) by (apply Z.pow_pos_nonneg; lia). nia. }
  pose proof (Z_div_mod m' 7205759403792794 ltac:(lia)) as Hdiv.
  destruct (Z.div_eucl m' 7205759403792794) as [q r]. destruct Hdiv as [Hq Hr].
  assert (Hq0 : 0 <= q) by nia.
  assert (Hqb : q < 2 ^ (sh + 1)).
  { assert (q * 2 ^ 52 < 2 ^ (53 + sh)) by nia.
    replace (53 + sh) with (sh + 1 + 52) in H by lia.
    rewrite (Z.pow_add_r 2 (sh + 1) 52) in H by lia.
    assert (0 < 2 ^ (sh + 1)) by (apply Z.pow_pos_nonneg; lia). nia. }
  apply binary_round_aux_in_range; [done| |].
  - subst e'. lia.
  - pose proof (Zdigits2_le q (sh + 1) Hq0 ltac:(lia) Hqb). subst sh. lia.
Qed.

Lemma div_eucl_pow2 a k :
  0 <= k -> Z.div_eucl (a * 2 ^ k) (2 ^ k) = (a, 0).
Proof.
  intros Hk. assert (0 < 2 ^ k) by (apply Z.pow_pos_nonneg; lia).
  pose proof (Z_div_mod (a * 2 ^ k) (2 ^ k) ltac:(lia)) as H1.
  destruct (Z.div_eucl (a * 2 ^ k) (2 ^ k)) as [q r]. destruct H1 as [H1 H2].
  assert (q = a) by nia. subst q. f_equal. lia.
Qed.

(** Dividing by 1.0 is exact. *)
Lemma SFdiv_one f :
  valid_binary prec emax f = true ->
  is_nan f = false ->
  SFdiv prec emax f (Z2SF 1) = f.
Proof.
  change (Z2SF 1) with (S754_finite false 4503599627370496 (-52)).
  destruct f as [[]|[]| |s m e]; try done.
  intros Hv _. simpl in Hv.
  pose proof Hv as Hb. unfold bounded in Hb.
  apply andb_true_iff in Hb as [Hc Hle].
  unfold canonical_mantissa in Hc. apply Z.eqb_eq in Hc. apply Z.leb_le in Hle.
  pose proof (Pos2Z.is_pos (digits2_pos m)) as Hd.
  cbn [SFdiv]. unfold SFdiv_core_binary.
  change (Zdigits2 (Z.pos m)) with (Z.pos (digits2_pos m)).
  change (Zdigits2 4503599627370496) with 53.
  set (d := Z.pos (digits2_pos m)) in *.
  destruct (Z_le_gt_dec (d + e - 53) (-1074)) as [Hsub|Hnorm].
  - (* the smallest exponent: no extra bit *)
    assert (He : e = -1074) by (unfold fexp, emin, prec, emax in Hc; lia).
    assert (He' : Z.min (fexp prec emax (d + e - (53 + -52))) (e - -52) = e)
      by (unfold fexp, emin, prec, emax in *; lia).
    rewrite He'. replace (e - -52 - e) with 52 by lia.
    cbv iota. rewrite Z.shiftl_mul_pow2 by lia.
    change 4503599627370496 with (2 ^ 52). rewrite div_eucl_pow2 by lia.
    change (new_location (2 ^ 52) 0) with loc_Exact.
    unfold binary_round_aux, shr_fexp.
    change (Zdigits2 (Z.pos m)) with d. rewrite Hc, Z.sub_diag.
    cbn [shr shr_record_of_loc shr_m loc_of_shr_record round_nearest_even].
    change (Zdigits2 (Z.pos m)) with d. rewrite Hc, Z.sub_diag.
    cbn [shr shr_record_of_loc shr_m].
    apply Z.leb_le in Hle. rewrite Hle. by rewrite xorb_false_r.
  - (* one extra bit, shifted out again *)
    assert (He' : Z.min (fexp prec emax (d + e - (53 + -52))) (e - -52) = e - 1)
      by (unfold fexp, emin, prec, emax in *; lia).
    rewrite He'. replace (e - -52 - (e - 1)) with 53 by lia.
    cbv iota. rewrite Z.shiftl_mul_pow2 by lia.
    replace (Z.pos m * 2 ^ 53) with (Z.pos m~0 * 2 ^ 52) by lia.
    change 4503599627370496 with (2 ^ 52). rewrite div_eucl_pow2 by lia.
    change (new_location (2 ^ 52) 0) with loc_Exact.
    unfold binary_round_aux, shr_fexp.
    change (Zdigits2 (Z.pos m~0)) with (Z.pos (Pos.succ (digits2_pos m))).
    rewrite Pos2Z.inj_succ. fold d.
    replace (Z.succ d + (e - 1)) with (d + e) by lia.
    rewrite Hc. replace (e - (e - 1)) with 1 by lia.
    cbn [shr shr_record_of_loc SpecFloat.iter_pos shr_1 shr_m loc_of_shr_record
           round_nearest_even orb].
    change (Zdigits2 (Z.pos m)) with d.
    replace (e - 1 + 1) with e by lia.
    rewrite Hc, Z.sub_diag.
    cbn [shr shr_record_of_loc shr_m].
    apply Z.leb_le in Hle. rewrite Hle. by rewrite xorb_false_r.
Qed.

End Rounding.

(** * Counting the frames of a row *)



(** * Tables on which every range has a length *)

Lemma fine_threshold_exponent m e :
  SFltb (Z2SF 8) (S754_finite false m e) = false -> e <= -49.
Proof.
  change (Z2SF 8) with (S754_finite false 4503599627370496 (-49)).
  unfold SFltb, SFcompare.
  destruct (Z.compare_spec (-49) e); [intros; lia|done|intros; lia].
Qed.

(** With the step 0.1 the sweep of an integer target between 0 and 8
    has a length and stops at or above the target. *)
Lemma fine_integer_sweep mx t :
  step_of mx = NFloat f_0_1 ->
  0 <= t <= 8 ->
  (exists values, arange (NInt 0) (NInt t) (step_of mx) = Ok values)
  /\ num_leb (NInt t) (settle mx (NInt t)) = true.
Proof.
  intros Hs Ht. unfold settle. rewrite Hs.
  assert (Hcases : t = 0 \/ t = 1 \/ t = 2 \/ t = 3 \/ t = 4 \/ t = 5
                   \/ t = 6 \/ t = 7 \/ t = 8) by lia.
  repeat (destruct Hcases as [->|Hcases]; [vm_compute; eauto|]).
  subst t. vm_compute. eauto.
Qed.

Lemma coarse_int_threshold (l : list Z) i t :
  coarse (series_max (IntCol l)) = false -> l !! i = Some t -> t <= 8.
Proof.
  intros Hc Hi. destruct (series_max_int l i t Hi) as (m & Hm & Hle).
  rewrite Hm in Hc. unfold coarse, py_gt_int, threshold in Hc.
  apply Z.ltb_ge in Hc. lia.
Qed.

Lemma py_ceil_in_range f :
  match f with S754_zero _ | S754_finite _ _ _ => True | _ => False end ->
  exists n, py_ceil f = Ok n.
Proof. destruct f; simpl; by eauto. Qed.

(** A finite, non-negative cell of a binary64 column has a range. *)
Lemma float_range_computable (l : list spec_float) i f :
  l !! i = Some f ->
  valid_binary prec emax f = true ->
  finite (NFloat f) = true ->
  nonneg (NFloat f) = true ->
  exists values,
    arange (NInt 0) (NFloat f) (step_of (series_max (FloatCol l))) = Ok values.
Proof.
  intros Hi Hv Hfin Hnn.
  rewrite arange_from_quotient by done.
  assert (Hq : exists n,
    py_ceil (SFdiv prec emax (to_float (NFloat f))
               (to_float (step_of (series_max (FloatCol l))))) = Ok n).
  { unfold step_of.
    destruct (coarse (series_max (FloatCol l))) eqn:Hc; simpl.
    - rewrite SFdiv_one by (done || by destruct f).
      apply py_ceil_in_range. by destruct f.
    - apply py_ceil_in_range.
      pose proof (fine_float_cell l i f Hc Hi) as Hle.
      destruct f as [s|s| |s m e]; try done.
      destruct s; [done|].
      apply SFdiv_tenth_in_range; [done|].
      apply fine_threshold_exponent in Hle. lia. }
  destruct Hq as [n ->]. eauto.
Qed.

Lemma int_range_computable (l : list Z) i t :
  l !! i = Some t ->
  well_formed (NInt t) = true ->
  nonneg (NInt t) = true ->
  exists values,
    arange (NInt 0) (NInt t) (step_of (series_max (IntCol l))) = Ok values.
Proof.
  intros Hi Hwf Hnn. simpl in Hwf, Hnn. unfold step_of.
  destruct (coarse (series_max (IntCol l))) eqn:Hc.
  - rewrite arange_int. eauto.
  - assert (Hs : step_of (series_max (IntCol l)) = NFloat f_0_1)
      by (unfold step_of; by rewrite Hc).
    rewrite <- Hs. apply (fine_integer_sweep _ t Hs).
    pose proof (coarse_int_threshold l i t Hc Hi). lia.
Qed.

(** On a table of finite, non-negative values every row has a range, so
    the run sweeps every row and returns. *)
Lemma finite_nonnegative_returns (df : DataFrame) :
  well_formed_column (y_values df) = true ->
  finite_column (y_values df) = true ->
  nonneg_column (y_values df) = true ->
  ending (animate_plot df) = Returned
  /\ length (sweeps (animate_plot df)) = length (cells (y_values df)).
Proof.
  intros Hwf Hfin Hnn.
  assert (Hret : ending (animate_plot df) = Returned).
  { apply run_returns, Forall_lookup. intros i T Hi.
    pose proof (forallb_lookup _ _ i T Hwf Hi) as HwfT.
    pose proof (forallb_lookup _ _ i T Hfin Hi) as HfinT.
    pose proof (forallb_lookup _ _ i T Hnn Hi) as HnnT.
    destruct (y_values df) as [l|l]; simpl in Hi;
      rewrite list_lookup_fmap in Hi;
      destruct (l !! i) as [x|] eqn:Hx; try done; injection Hi as <-.
    - by apply (int_range_computable l i x).
    - by apply (float_range_computable l i x). }
  split; [done|].
  pose proof (run_ending df) as H. by rewrite Hret in H.
Qed.



(** * Where a sweep stops *)




(** * More about the filters *)

Lemma filter_sublist {A} (p : A -> bool) (l : list A) :
  List.filter p l `sublist_of` l.
Proof.
  induction l as [|x l IH]; simpl; [constructor|].
  destruct (p x); by constructor.
Qed.

Lemma filter_hometown_sublist h df : filter_hometown h df `sublist_of` df.
Proof.
  unfold filter_hometown. destruct (negb _); [apply filter_sublist|done].
Qed.

Lemma filter_unit_sublist u df : filter_unit u df `sublist_of` df.
Proof.
  unfold filter_unit. destruct (negb _); [apply filter_sublist|done].
Qed.

Lemma filter_id_sublist text df out :
  filter_id text df = Some out -> out `sublist_of` df.
Proof.
  unfold filter_id. destruct (String.eqb text ""); [by intros [= <-]|].
  destruct (compile text); [|done]. intros [= <-]. apply filter_sublist.
Qed.

Lemma filter_filter_comm {A} (p q : A -> bool) (l : list A) :
  List.filter p (List.filter q l) = List.filter q (List.filter p l).
Proof.
  induction l as [|x l IH]; simpl; [done|].
  destruct (p x) eqn:Hp, (q x) eqn:Hq; simpl; rewrite ?Hp, ?Hq, ?IH; done.
Qed.

Lemma filter_filter_same {A} (p : A -> bool) (l : list A) :
  List.filter p (List.filter p l) = List.filter p l.
Proof.
  induction l as [|x l IH]; simpl; [done|].
  destruct (p x) eqn:Hp; simpl; rewrite ?Hp, ?IH; done.
Qed.

(** X1.  Choosing "All" in the Unit box leaves the table as it is; choosing
    any other entry keeps exactly the rows of that unit, in their
    order. *)
Theorem unit_filter_selects (selectbox_unit : string) (df : list employee) :
  filter_unit "All" df = df
  /\ (selectbox_unit <> "All"%string ->
      filter_unit selectbox_unit df
      = List.filter (fun r => String.eqb (Unit r) selectbox_unit) df
      /\ forall r, In r (filter_unit selectbox_unit df)
                   <-> In r df /\ Unit r = selectbox_unit).
Proof.
  split; [done|]. intros Hsel.
  assert (Hf : filter_unit selectbox_unit df
               = List.filter (fun r => String.eqb (Unit r) selectbox_unit) df).
  { unfold filter_unit.
    destruct (String.eqb selectbox_unit "All") eqn:E; [|done].
    by apply String.eqb_eq in E. }
  split; [exact Hf|]. intros r. rewrite Hf. apply filter_eqb_In.
Qed.

Lemma it_is_selected :
  "IT"%string <> "All"%string
  /\ filter_unit "IT" staff
     = List.filter (fun r => String.eqb (Unit r) "IT") staff.
Proof.
  assert (Hne : "IT"%string <> "All"%string) by discriminate.
  split; [exact Hne|].
  exact (proj1 (proj2 (unit_filter_selects "IT" staff) Hne)).
Defined.

(** X2.  A row is displayed exactly when it passes the three filters: its
    Employee_ID matches the pattern typed (any row when nothing is
    typed), and its Hometown and Unit are the ones chosen (any when
    "All" is chosen). *)
Theorem displayed_rows_pass_all_filters (text_input_id selectbox_hometown
    selectbox_unit : string) (df_employees out : list employee) :
  df_employees_filtred text_input_id selectbox_hometown selectbox_unit
    df_employees = Some out ->
  forall r,
    In r out
    <-> In r df_employees
        /\ (text_input_id = ""%string
            \/ exists atoms, compile text_input_id = Some atoms
                             /\ search atoms (Employee_ID r) = true)
        /\ (selectbox_hometown = "All"%string
            \/ Hometown r = selectbox_hometown)
        /\ (selectbox_unit = "All"%string \/ Unit r = selectbox_unit).
Proof.
  unfold df_employees_filtred. intros H r.
  destruct (filter_id text_input_id df_employees) as [ids|] eqn:Hid; [|done].
  injection H as <-.
  assert (Hu : In r (filter_unit selectbox_unit
                       (filter_hometown selectbox_hometown ids))
               <-> In r (filter_hometown selectbox_hometown ids)
                   /\ (selectbox_unit = "All"%string
                       \/ Unit r = selectbox_unit)).
  { unfold filter_unit. destruct (String.eqb selectbox_unit "All") eqn:E.
    - apply String.eqb_eq in E. simpl. tauto.
    - apply String.eqb_neq in E. simpl. rewrite filter_eqb_In. tauto. }
  assert (Hh : In r (filter_hometown selectbox_hometown ids)
               <-> In r ids
                   /\ (selectbox_hometown = "All"%string
                       \/ Hometown r = selectbox_hometown)).
  { unfold filter_hometown.
    destruct (String.eqb selectbox_hometown "All") eqn:E.
    - apply String.eqb_eq in E. simpl. tauto.
    - apply String.eqb_neq in E. simpl. rewrite filter_eqb_In. tauto. }
  assert (Hi : In r ids
               <-> In r df_employees
                   /\ (text_input_id = ""%string
                       \/ exists atoms, compile text_input_id = Some atoms
                            /\ search atoms (Employee_ID r) = true)).
  { unfold filter_id in Hid.
    destruct (String.eqb text_input_id "") eqn:E.
    - apply String.eqb_eq in E. injection Hid as <-. tauto.
    - apply String.eqb_neq in E.
      destruct (compile text_input_id) as [atoms|]; [|done].
      injection Hid as <-. rewrite filter_In. split.
      + intros [H1 H2]. split; [done|]. right. eauto.
      + intros [H1 [H2|(atoms' & [= <-] & H2)]]; [done|]. done. }
  rewrite Hu, Hh, Hi. tauto.
Qed.

Lemma staff_displayed_rows :
  df_employees_filtred "eid_2" "Franklin" "All" staff
  = Some (List.filter (fun r => String.eqb (Hometown r) "Franklin") staff)
  /\ forall r,
       In r (List.filter (fun r => String.eqb (Hometown r) "Franklin") staff)
       -> Hometown r = "Franklin"%string.
Proof.
  assert (H : df_employees_filtred "eid_2" "Franklin" "All" staff
              = Some (List.filter
                        (fun r => String.eqb (Hometown r) "Franklin") staff))
    by reflexivity.
  split; [exact H|]. intros r Hr.
  destruct (proj1 (displayed_rows_pass_all_filters _ _ _ _ _ H r) Hr)
    as (_ & _ & [Hh|Hh] & _); [discriminate Hh | exact Hh].
Defined.

(** X3.  The displayed table keeps the rows of the loaded table in their
    order: it never adds, repeats or reorders a row. *)
Theorem displayed_table_is_a_sublist (text_input_id selectbox_hometown
    selectbox_unit : string) (df_employees out : list employee) :
  df_employees_filtred text_input_id selectbox_hometown selectbox_unit
    df_employees = Some out ->
  out `sublist_of` df_employees
  /\ (length out <= length df_employees)%nat.
Proof.
  unfold df_employees_filtred. intros H.
  destruct (filter_id text_input_id df_employees) as [ids|] eqn:Hid; [|done].
  injection H as <-.
  assert (Hs : filter_unit selectbox_unit
                 (filter_hometown selectbox_hometown ids)
               `sublist_of` df_employees).
  { etrans; [apply filter_unit_sublist|].
    etrans; [apply filter_hometown_sublist|].
    by apply (filter_id_sublist text_input_id). }
  split; [exact Hs|]. by apply sublist_length.
Qed.

Lemma staff_displayed_sublist :
  df_employees_filtred "9" "All" "IT" staff
  = Some (List.filter (fun r => String.eqb (Unit r) "IT") staff)
  /\ List.filter (fun r => String.eqb (Unit r) "IT") staff `sublist_of` staff.
Proof.
  assert (H : df_employees_filtred "9" "All" "IT" staff
              = Some (List.filter (fun r => String.eqb (Unit r) "IT") staff))
    by reflexivity.
  split; [exact H|].
  exact (proj1 (displayed_table_is_a_sublist _ _ _ _ _ H)).
Defined.

(** X4.  The Hometown and the Unit filter can be applied in either order,
    and applying one of them twice changes nothing more. *)
Theorem hometown_and_unit_filters_commute (selectbox_hometown
    selectbox_unit : string) (df : list employee) :
  filter_unit selectbox_unit (filter_hometown selectbox_hometown df)
  = filter_hometown selectbox_hometown (filter_unit selectbox_unit df)
  /\ filter_hometown selectbox_hometown
       (filter_hometown selectbox_hometown df)
     = filter_hometown selectbox_hometown df
  /\ filter_unit selectbox_unit (filter_unit selectbox_unit df)
     = filter_unit selectbox_unit df.
Proof.
  unfold filter_unit, filter_hometown.
  destruct (negb (String.eqb selectbox_unit "All")),
    (negb (String.eqb selectbox_hometown "All"));
    rewrite ?filter_filter_same; split; try done.
  apply filter_filter_comm.
Qed.


(** ** Letter case *)













(** * The order of strings and the select boxes *)

Lemma string_leb_trans s1 : forall s2 s3,
  String.leb s1 s2 = true -> String.leb s2 s3 = true ->
  String.leb s1 s3 = true.
Proof.
  unfold String.leb.
  induction s1 as [|c1 s1 IH]; intros [|c2 s2] [|c3 s3]; simpl; try done.
  unfold Ascii.compare.
  destruct (N.compare_spec (N_of_ascii c1) (N_of_ascii c2)),
    (N.compare_spec (N_of_ascii c2) (N_of_ascii c3)),
    (N.compare_spec (N_of_ascii c1) (N_of_ascii c3));
    try done; try lia.
  apply IH.
Qed.

#[local] Instance str_le_total : Total str_le.
Proof. intros a b. apply String.leb_total. Qed.

#[local] Instance str_le_trans : Transitive str_le.
Proof. intros a b c. apply string_leb_trans. Qed.

#[local] Instance str_le_antisym : AntiSymm (=) str_le.
Proof. intros a b. apply String.leb_antisym. Qed.

Lemma str_le_ne_lt a b : str_le a b -> a <> b -> str_lt a b.
Proof.
  unfold str_le, str_lt, String.leb, String.ltb. intros Hle Hne.
  destruct (String.compare a b) eqn:E; try done.
  by apply String.compare_eq_iff in E.
Qed.

Lemma strictly_sorted (l : list string) :
  StronglySorted str_le l -> NoDup l -> StronglySorted str_lt l.
Proof.
  induction 1 as [|x l Hl IH Hx]; intros Hnd; constructor.
  - apply IH. by apply NoDup_cons_1_2 in Hnd.
  - apply NoDup_cons in Hnd as [Hnot _].
    rewrite Forall_forall in Hx. apply Forall_forall. intros y Hy.
    apply str_le_ne_lt; [by apply Hx|]. by intros <-.
Qed.

Lemma unique_In (l : list string) x : In x (unique l) <-> In x l.
Proof.
  induction l as [|y l IH]; simpl; [done|].
  rewrite filter_In, IH, negb_true_iff, String.eqb_neq.
  destruct (String.eqb_spec y x) as [->|Hne]; [tauto|].
  split; [tauto|]. intros [H|H]; [done|]. right. split; [done|]. congruence.
Qed.

Lemma unique_NoDup (l : list string) : NoDup (unique l).
Proof.
  induction l as [|y l IH]; simpl; constructor.
  - rewrite list_elem_of_In, filter_In, negb_true_iff, String.eqb_neq. tauto.
  - apply NoDup_ListNoDup, List.NoDup_filter, NoDup_ListNoDup, IH.
Qed.

Lemma sorted_In (l : list string) x : In x (sorted l) <-> In x l.
Proof.
  unfold sorted. rewrite <- !list_elem_of_In.
  by rewrite (merge_sort_Permutation str_le l).
Qed.

Lemma sorted_unique_strict (l : list string) :
  StronglySorted str_lt (sorted (unique l)).
Proof.
  apply strictly_sorted.
  - apply StronglySorted_merge_sort; apply _.
  - unfold sorted. rewrite (merge_sort_Permutation str_le). apply unique_NoDup.
Qed.

Lemma options_In (column : list string) h :
  In h (sorted (unique column)) <-> In h column.
Proof. by rewrite sorted_In, unique_In. Qed.

Lemma hometown_filter_rows h df r :
  h <> "All"%string ->
  In r (filter_hometown h df) <-> In r df /\ Hometown r = h.
Proof.
  intros Hne. unfold filter_hometown.
  destruct (String.eqb h "All") eqn:E; [by apply String.eqb_eq in E|].
  apply filter_eqb_In.
Qed.

Lemma unit_filter_rows u df r :
  u <> "All"%string ->
  In r (filter_unit u df) <-> In r df /\ Unit r = u.
Proof.
  intros Hne. unfold filter_unit.
  destruct (String.eqb u "All") eqn:E; [by apply String.eqb_eq in E|].
  apply filter_eqb_In.
Qed.

(** X7.  The Hometown box offers "All" and then every hometown of the loaded
    table once, in increasing order.  With nothing typed in the
    Employee ID box, every hometown offered selects at least one row. *)
Theorem hometown_box_offers_every_hometown (df_employees : list employee) :
  (forall h, In h (hometown_options df_employees)
             <-> h = "All"%string
                 \/ exists r, In r df_employees /\ Hometown r = h)
  /\ (exists entries, hometown_options df_employees = "All"%string :: entries
                      /\ StronglySorted str_lt entries)
  /\ (forall h, In h (hometown_options df_employees) ->
                h <> "All"%string ->
                exists r out,
                  df_employees_filtred "" h "All" df_employees = Some out
                  /\ In r out /\ Hometown r = h).
Proof.
  assert (Hin : forall h, In h (hometown_options df_employees)
                          <-> h = "All"%string
                              \/ exists r, In r df_employees /\ Hometown r = h).
  { intros h. unfold hometown_options. simpl. rewrite options_In.
    rewrite <- list_elem_of_In, list_elem_of_fmap.
    setoid_rewrite list_elem_of_In.
    split; (intros [H|H]; [left; by rewrite H|right]).
    - destruct H as (r & -> & Hr). eauto.
    - destruct H as (r & Hr & <-). eauto. }
  split; [exact Hin|]. split.
  { eexists. split; [done|]. apply sorted_unique_strict. }
  intros h Hh Hne. apply Hin in Hh as [->|(r & Hr & Hrh)]; [done|].
  exists r, (filter_hometown h df_employees). split; [done|].
  split; [|done].
  by apply hometown_filter_rows.
Qed.

Lemma staff_hometown_box :
  In "Springfield"%string (hometown_options staff)
  /\ "Springfield"%string <> "All"%string
  /\ hometown_options staff = ["All"; "Franklin"; "Springfield"]%string
  /\ exists r out,
       df_employees_filtred "" "Springfield" "All" staff = Some out
       /\ In r out /\ Hometown r = "Springfield"%string.
Proof.
  assert (Hin : In "Springfield"%string (hometown_options staff))
    by (vm_compute; tauto).
  assert (Hne : "Springfield"%string <> "All"%string) by discriminate.
  split; [exact Hin|]. split; [exact Hne|]. split; [reflexivity|].
  exact (proj2 (proj2 (hometown_box_offers_every_hometown staff))
           "Springfield"%string Hin Hne).
Defined.

(** X8.  The Unit box offers "All" and then every unit of the loaded table
    once, in increasing order.  With nothing typed and "All" hometowns,
    every unit offered selects at least one row. *)
Theorem unit_box_offers_every_unit (df_employees : list employee) :
  (forall u, In u (unit_options df_employees)
             <-> u = "All"%string
                 \/ exists r, In r df_employees /\ Unit r = u)
  /\ (exists entries, unit_options df_employees = "All"%string :: entries
                      /\ StronglySorted str_lt entries)
  /\ (forall u, In u (unit_options df_employees) ->
                u <> "All"%string ->
                exists r out,
                  df_employees_filtred "" "All" u df_employees = Some out
                  /\ In r out /\ Unit r = u).
Proof.
  assert (Hin : forall u, In u (unit_options df_employees)
                          <-> u = "All"%string
                              \/ exists r, In r df_employees /\ Unit r = u).
  { intros u. unfold unit_options. simpl. rewrite options_In.
    rewrite <- list_elem_of_In, list_elem_of_fmap.
    setoid_rewrite list_elem_of_In.
    split; (intros [H|H]; [left; by rewrite H|right]).
    - destruct H as (r & -> & Hr). eauto.
    - destruct H as (r & Hr & <-). eauto. }
  split; [exact Hin|]. split.
  { eexists. split; [done|]. apply sorted_unique_strict. }
  intros u Hu Hne. apply Hin in Hu as [->|(r & Hr & Hru)]; [done|].
  exists r, (filter_unit u df_employees). split; [done|].
  split; [|done].
  by apply unit_filter_rows.
Qed.

Lemma staff_unit_box :
  In "R&D"%string (unit_options staff)
  /\ "R&D"%string <> "All"%string
  /\ unit_options staff = ["All"; "IT"; "R&D"; "Sales"]%string
  /\ exists r out,
       df_employees_filtred "" "All" "R&D" staff = Some out
       /\ In r out /\ Unit r = "R&D"%string.
Proof.
  assert (Hin : In "R&D"%string (unit_options staff))
    by (vm_compute; tauto).
  assert (Hne : "R&D"%string <> "All"%string) by discriminate.
  split; [exact Hin|]. split; [exact Hne|]. split; [reflexivity|].
  exact (proj2 (proj2 (unit_box_offers_every_unit staff))
           "R&D"%string Hin Hne).
Defined.

(** * More about animate_plot *)




(** X10.  On a table of non-negative integers with a maximum above 8, the
    sweep of a row with target [t] has exactly [t] frames, and its
    [k]-th frame shows [k] in that row: the bar counts 1, 2, ..., [t]. *)
Theorem coarse_sweep_counts_up (xs : list string) (l : list Z)
    (i : nat) (t : Z) :
  forallb (fun t => (0 <=? t) && (t <? 2 ^ 63)) l = true ->
  coarse (series_max (IntCol l)) = true ->
  l !! i = Some t ->
  exists s,
    sweeps (animate_plot {| x_values := xs; y_values := IntCol l |}) !! i
    = Some s
    /\ Z.of_nat (length s) = t
    /\ forall k f, s !! k = Some f ->
         heights (drawn f) !! i = Some (NInt (Z.of_nat k + 1)).
Proof.
  intros Hrange Hcoarse Hi.
  set (df := {| x_values := xs; y_values := IntCol l |}).
  pose proof (lookup_lt_Some _ _ _ Hi) as Hil.
  pose proof (int64_nonneg_lookup l Hrange i t Hi) as Ht.
  destruct (lookup_lt_is_Some_2 (sweeps (animate_plot df)) i) as [s Hs].
  { unfold df. rewrite (coarse_sweeps_length xs l Hcoarse). lia. }
  exists s. split; [done|]. split.
  - destruct (run_sweep df i s Hs) as (T & values & HT & Hr & ->).
    simpl in HT. rewrite list_lookup_fmap, Hi in HT. injection HT as <-.
    simpl in Hr. rewrite (coarse_step l Hcoarse), arange_int in Hr.
    injection Hr as <-. rewrite !length_fmap, length_seqZ. lia.
  - intros k f Hk.
    destruct (coarse_frame xs l Hrange Hcoarse i s k f Hs Hk)
      as (t' & _ & _ & ->).
    rewrite lookup_app_r; rewrite length_fmap, length_take; [|lia].
    by replace (i - i `min` length l)%nat with 0%nat by lia.
Qed.

Lemma ages_count_up :
  forallb (fun t => (0 <=? t) && (t <? 2 ^ 63)) [5; 12] = true
  /\ coarse (series_max (IntCol [5; 12])) = true
  /\ exists s,
       sweeps (animate_plot ages) !! 1%nat = Some s
       /\ Z.of_nat (length s) = 12
       /\ forall k f, s !! k = Some f ->
            heights (drawn f) !! 1%nat = Some (NInt (Z.of_nat k + 1)).
Proof.
  split; [reflexivity|]. split; [reflexivity|].
  exact (coarse_sweep_counts_up (x_values ages) [5; 12] 1 12
           eq_refl eq_refl eq_refl).
Defined.

Lemma sum_list_lengths (ss : list (list frame)) (l : list Z) :
  length ss = length l ->
  (forall i s t, ss !! i = Some s -> l !! i = Some t ->
                 Z.of_nat (length s) = t) ->
  Z.of_nat (length (concat ss)) = foldr Z.add 0 l.
Proof.
  revert l. induction ss as [|s ss IH]; intros [|t l] Hlen H; try done.
  simpl. rewrite length_app, Nat2Z.inj_add.
  rewrite (H 0%nat s t eq_refl eq_refl). f_equal.
  apply IH; [by injection Hlen|].
  intros i s' t' Hs Ht. exact (H (S i) s' t' Hs Ht).
Qed.

Lemma coarse_frames_total (xs : list string) (l : list Z) :
  forallb (fun t => (0 <=? t) && (t <? 2 ^ 63)) l = true ->
  coarse (series_max (IntCol l)) = true ->
  Z.of_nat (length (concat (sweeps (animate_plot
                                      {| x_values := xs; y_values := IntCol l |}))))
  = foldr Z.add 0 l.
Proof.
  intros Hrange Hcoarse. apply sum_list_lengths.
  - apply (coarse_sweeps_length xs l Hcoarse).
  - intros i s t Hs Hi.
    destruct (run_sweep {| x_values := xs; y_values := IntCol l |} i s Hs)
      as (T & values & HT & Hr & ->).
    simpl in HT. rewrite list_lookup_fmap, Hi in HT. injection HT as <-.
    simpl in Hr. rewrite (coarse_step l Hcoarse), arange_int in Hr.
    injection Hr as <-. rewrite !length_fmap, length_seqZ.
    pose proof (int64_nonneg_lookup l Hrange i t Hi). lia.
Qed.

(** X11.  On such a table the whole animation draws as many frames as the
    targets add up to. *)
Theorem coarse_run_draws_the_sum (xs : list string) (l : list Z) :
  forallb (fun t => (0 <=? t) && (t <? 2 ^ 63)) l = true ->
  coarse (series_max (IntCol l)) = true ->
  Z.of_nat (length (concat (sweeps (animate_plot
                                      {| x_values := xs; y_values := IntCol l |}))))
  = foldr Z.add 0 l.
Proof. apply coarse_frames_total. Qed.

Lemma ages_draw_17_frames :
  forallb (fun t => (0 <=? t) && (t <? 2 ^ 63)) [5; 12] = true
  /\ coarse (series_max (IntCol [5; 12])) = true
  /\ Z.of_nat (length (concat (sweeps (animate_plot ages)))) = 17.
Proof.
  split; [reflexivity|]. split; [reflexivity|].
  exact (coarse_run_draws_the_sum (x_values ages) [5; 12] eq_refl eq_refl).
Defined.

Lemma fine_integer_facts mx t :
  step_of mx = NFloat f_0_1 ->
  0 <= t <= 8 ->
  exists values,
    arange (NInt 0) (NInt t) (step_of mx) = Ok values
    /\ Z.of_nat (length values) = 10 * t
    /\ (t <> 3 -> num_eqb (settle mx (NInt t)) (NInt t) = true)
    /\ (t = 3 ->
        settle mx (NInt t) = NFloat (S754_finite false 6755399441055745 (-51))).
Proof.
  intros Hs Ht. unfold settle. rewrite Hs.
  assert (Hcases : t = 0 \/ t = 1 \/ t = 2 \/ t = 3 \/ t = 4 \/ t = 5
                   \/ t = 6 \/ t = 7 \/ t = 8) by lia.
  repeat (destruct Hcases as [->|Hcases];
          [eexists; split; [vm_compute; reflexivity|];
           split; [reflexivity|]; split; [intros; try done; reflexivity|];
           intros; try done; reflexivity|]).
  subst t. eexists. split; [vm_compute; reflexivity|].
  split; [reflexivity|]. split; [reflexivity|]. done.
Qed.

(** X12.  On a table of non-negative integers with a maximum of at most 8,
    the step is 0.1 and a row with target [t] takes exactly [10 * t]
    frames.  It ends on a value equal to [t], except for a target of 3,
    which ends on 3.0000000000000004. *)
Theorem fine_integer_rows (xs : list string) (l : list Z) (i : nat) (t : Z) :
  forallb (fun t => (0 <=? t) && (t <? 2 ^ 63)) l = true ->
  coarse (series_max (IntCol l)) = false ->
  l !! i = Some t ->
  Z.of_nat (frames_of_row (animate_plot {| x_values := xs; y_values := IntCol l |}) i)
  = 10 * t
  /\ exists shown,
       heights (df_temp (animate_plot {| x_values := xs; y_values := IntCol l |}))
         !! i = Some shown
       /\ (t <> 3 -> num_eqb shown (NInt t) = true)
       /\ (t = 3 ->
           shown = NFloat (S754_finite false 6755399441055745 (-51))).
Proof.
  intros Hrange Hc Hi.
  set (df := {| x_values := xs; y_values := IntCol l |}).
  assert (Hstep : step_of (series_max (y_values df)) = NFloat f_0_1).
  { unfold step_of. simpl. by rewrite Hc. }
  assert (Ht : 0 <= t <= 8).
  { pose proof (int64_nonneg_lookup l Hrange i t Hi).
    pose proof (coarse_int_threshold l i t Hc Hi). lia. }
  destruct (fine_integer_facts _ t Hstep Ht) as (values & Hr & Hlen & Heq & H3).
  assert (Hwf : well_formed_column (y_values df) = true).
  { simpl. unfold well_formed_column. simpl. rewrite forallb_forall.
    intros x Hx. apply list_elem_of_In, list_elem_of_fmap in Hx as (z & -> & Hz).
    apply list_elem_of_lookup in Hz as [j Hj].
    pose proof (int64_nonneg_lookup l Hrange j z Hj). simpl. lia. }
  assert (Hnn : nonneg_column (y_values df) = true).
  { unfold nonneg_column. simpl. rewrite forallb_forall.
    intros x Hx. apply list_elem_of_In, list_elem_of_fmap in Hx as (z & -> & Hz).
    apply list_elem_of_lookup in Hz as [j Hj].
    pose proof (int64_nonneg_lookup l Hrange j z Hj). simpl. lia. }
  assert (Hfin : finite_column (y_values df) = true).
  { unfold finite_column. simpl. rewrite forallb_forall.
    intros x Hx. by apply list_elem_of_In, list_elem_of_fmap in Hx as (z & -> & Hz). }
  destruct (finite_nonnegative_returns df Hwf Hfin Hnn) as [_ Hlen'].
  simpl in Hlen'. rewrite length_fmap in Hlen'.
  pose proof (lookup_lt_Some _ _ _ Hi) as Hil.
  destruct (lookup_lt_is_Some_2 (sweeps (animate_plot df)) i) as [s Hs];
    [lia|].
  split.
  - unfold frames_of_row. fold df. rewrite Hs.
    destruct (run_sweep df i s Hs) as (T & values' & HT & Hr' & ->).
    simpl in HT. rewrite list_lookup_fmap, Hi in HT. injection HT as <-.
    rewrite Hr in Hr'. injection Hr' as <-. by rewrite length_fmap.
  - exists (settle (series_max (y_values df)) (NInt t)).
    fold df. rewrite final_height by lia. simpl.
    rewrite list_lookup_fmap, Hi. done.
Qed.

Lemma units_take_ten_frames_a_unit :
  forallb (fun t => (0 <=? t) && (t <? 2 ^ 63)) [2; 3] = true
  /\ coarse (series_max (IntCol [2; 3])) = false
  /\ Z.of_nat (frames_of_row (animate_plot units) 0) = 10 * 2
  /\ exists shown,
       heights (df_temp (animate_plot units)) !! 0%nat = Some shown
       /\ (2 <> 3 -> num_eqb shown (NInt 2) = true)
       /\ (2 = 3 ->
           shown = NFloat (S754_finite false 6755399441055745 (-51))).
Proof.
  split; [reflexivity|]. split; [reflexivity|].
  exact (fine_integer_rows (x_values units) [2; 3] 0 2
           eq_refl eq_refl eq_refl).
Defined.

(** * The unit frequency chart *)

#[local] Instance key_le_total : Total key_le.
Proof. intros r1 r2. apply str_le_total. Qed.

#[local] Instance key_le_trans : Transitive key_le.
Proof. intros r1 r2 r3. apply str_le_trans. Qed.

Lemma sorted_strongly (l : list string) : StronglySorted str_le (sorted l).
Proof. apply StronglySorted_merge_sort; apply _. Qed.

Lemma sorted_perm (l1 l2 : list string) : l1 ≡ₚ l2 -> sorted l1 = sorted l2.
Proof.
  intros H. apply (StronglySorted_unique str_le); try apply sorted_strongly.
  unfold sorted. by rewrite !merge_sort_Permutation.
Qed.

Lemma sort_values_keys (rows : list (string * Z)) :
  fst <$> sort_values rows = sorted (fst <$> rows).
Proof.
  apply (StronglySorted_unique str_le).
  - apply (StronglySorted_fmap _ key_le); [done|].
    apply StronglySorted_merge_sort; apply _.
  - apply sorted_strongly.
  - unfold sort_values, sorted. by rewrite !merge_sort_Permutation.
Qed.

(** Rows whose second column is a function of the first are put in one
    order only. *)
Lemma sort_values_functional (g : string -> Z) (rows : list (string * Z)) :
  Forall (fun r => r.2 = g r.1) rows ->
  sort_values rows = (fun u => (u, g u)) <$> sorted (fst <$> rows).
Proof.
  intros H. rewrite <- sort_values_keys, <- list_fmap_compose.
  assert (H' : Forall (fun r => r.2 = g r.1) (sort_values rows)).
  { unfold sort_values. by rewrite merge_sort_Permutation. }
  induction H' as [|[u c] rest Hr _ IH]; [done|].
  simpl in Hr. subst c. rewrite fmap_cons. simpl. by f_equal.
Qed.

Lemma value_counts_perm (l : list string) :
  value_counts l ≡ₚ (fun u => (u, occurrences u l)) <$> unique l.
Proof. apply merge_sort_Permutation. Qed.

Lemma counted_rows (l : list string) (rows : list (string * Z)) :
  rows ≡ₚ value_counts l ->
  sort_values rows
  = (fun u => (u, occurrences u l)) <$> sorted (unique l).
Proof.
  intros H. rewrite value_counts_perm in H.
  rewrite (sort_values_functional (fun u => occurrences u l)).
  - f_equal. apply sorted_perm. rewrite H, <- list_fmap_compose.
    by rewrite list_fmap_id.
  - rewrite H. by apply Forall_fmap, Forall_true.
Qed.

Lemma unit_counts_eq (df : list employee) :
  unit_counts df
  = {| x_values := sorted (unique (Unit <$> df));
       y_values := IntCol ((fun u => occurrences u (Unit <$> df))
                             <$> sorted (unique (Unit <$> df))) |}.
Proof.
  unfold unit_counts. rewrite (counted_rows (Unit <$> df)) by done.
  rewrite <- !list_fmap_compose. f_equal. by rewrite list_fmap_id.
Qed.

Lemma occurrences_In (u : string) (l : list string) :
  In u l -> 1 <= occurrences u l.
Proof.
  unfold occurrences. intros H.
  assert (In u (List.filter (String.eqb u) l)).
  { apply filter_In. split; [done|]. apply String.eqb_refl. }
  destruct (List.filter (String.eqb u) l); [done|]. simpl length. lia.
Qed.

Lemma occurrences_rows (u : string) (df : list employee) :
  occurrences u (Unit <$> df)
  = Z.of_nat (length (List.filter (fun r => String.eqb (Unit r) u) df)).
Proof.
  unfold occurrences. f_equal. induction df as [|r df IH]; [done|].
  rewrite fmap_cons. cbn [List.filter]. rewrite (String.eqb_sym u).
  destruct (String.eqb (Unit r) u); cbn [length]; by rewrite IH.
Qed.

(** X13.  The unit chart has one bar for each unit of the table and no other,
    the bars in increasing order of their labels. *)
Theorem unit_chart_has_a_bar_per_unit (df : list employee) :
  StronglySorted str_lt (x_values (unit_counts df))
  /\ length (cells (y_values (unit_counts df)))
     = length (x_values (unit_counts df))
  /\ forall u, In u (x_values (unit_counts df))
               <-> exists r, In r df /\ Unit r = u.
Proof.
  rewrite unit_counts_eq. simpl. split; [apply sorted_unique_strict|].
  split; [by rewrite !length_fmap|].
  intros u. rewrite options_In, in_map_iff.
  split; intros (r & H1 & H2); eauto.
Qed.

(** X14.  The bar of a unit is as high as the table has rows of that unit,
    which is at least one. *)
Theorem unit_bar_height_is_the_row_count (df : list employee)
    (i : nat) (u : string) :
  x_values (unit_counts df) !! i = Some u ->
  cells (y_values (unit_counts df)) !! i
  = Some (NInt (Z.of_nat (length (List.filter
                                    (fun r => String.eqb (Unit r) u) df))))
  /\ (1 <= length (List.filter (fun r => String.eqb (Unit r) u) df))%nat.
Proof.
  rewrite unit_counts_eq. simpl. intros Hu.
  rewrite !list_lookup_fmap, Hu. simpl. rewrite occurrences_rows.
  split; [done|].
  assert (In u (Unit <$> df)).
  { apply (options_In (Unit <$> df)), list_elem_of_In.
    by apply list_elem_of_lookup_2 in Hu. }
  apply occurrences_In in H. rewrite occurrences_rows in H. lia.
Qed.

Lemma staff_sales_bar :
  x_values (unit_counts staff) !! 2%nat = Some "Sales"%string
  /\ cells (y_values (unit_counts staff)) !! 2%nat
     = Some (NInt (Z.of_nat (length (List.filter
                     (fun r => String.eqb (Unit r) "Sales") staff))))
  /\ (1 <= length (List.filter
                     (fun r => String.eqb (Unit r) "Sales") staff))%nat.
Proof.
  split; [reflexivity|].
  exact (unit_bar_height_is_the_row_count staff 2 "Sales" eq_refl).
Defined.

Lemma sum_without (f : string -> Z) (x : string) (us : list string) :
  NoDup us ->
  foldr Z.add 0 (f <$> us)
  = foldr Z.add 0 (f <$> List.filter (fun y => negb (String.eqb y x)) us)
    + (if existsb (String.eqb x) us then f x else 0).
Proof.
  induction 1 as [|u us Hu Hnd IH]; [done|].
  rewrite fmap_cons. cbn [foldr List.filter existsb]. rewrite IH.
  rewrite (String.eqb_sym x u).
  destruct (String.eqb_spec u x) as [->|Hne]; cbn [negb orb].
  - destruct (existsb (String.eqb x) us) eqn:E; [|lia].
    apply existsb_exists in E as (y & Hy & Heq).
    apply String.eqb_eq in Heq. subst y.
    by apply list_elem_of_In in Hy.
  - rewrite fmap_cons. cbn [foldr]. lia.
Qed.

Lemma occurrences_cons (u x : string) (l : list string) :
  occurrences u (x :: l)
  = occurrences u l + (if String.eqb u x then 1 else 0).
Proof.
  unfold occurrences. simpl. destruct (String.eqb u x); simpl length; lia.
Qed.

Lemma occurrences_absent (u : string) (l : list string) :
  ~ In u l -> occurrences u l = 0.
Proof.
  unfold occurrences. intros H.
  destruct (List.filter (String.eqb u) l) as [|y rest] eqn:E; [done|].
  assert (Hy : In y (List.filter (String.eqb u) l)) by (rewrite E; by left).
  apply filter_In in Hy as [Hy Heq]. apply String.eqb_eq in Heq. by subst.
Qed.

Lemma occurrences_total (l : list string) :
  foldr Z.add 0 ((fun u => occurrences u l) <$> unique l)
  = Z.of_nat (length l).
Proof.
  induction l as [|x l IH]; [done|].
  pose proof (sum_without (fun u => occurrences u l) x (unique l)
                (unique_NoDup l)) as Hsplit.
  rewrite IH in Hsplit.
  cbn [unique fmap list_fmap foldr]. rewrite occurrences_cons, String.eqb_refl.
  assert (Hrest :
    (fun u => occurrences u (x :: l))
      <$> List.filter (fun y => negb (String.eqb y x)) (unique l)
    = (fun u => occurrences u l)
      <$> List.filter (fun y => negb (String.eqb y x)) (unique l)).
  { apply Forall_fmap_ext_1, Forall_forall. intros u Hu.
    apply list_elem_of_In, filter_In in Hu as [_ Hu].
    rewrite occurrences_cons. destruct (String.eqb u x); [done|lia]. }
  rewrite Hrest.
  assert (Hx : (if existsb (String.eqb x) (unique l)
                then occurrences x l else 0)
               = occurrences x l).
  { destruct (existsb (String.eqb x) (unique l)) eqn:E; [done|].
    symmetry. apply occurrences_absent. rewrite <- unique_In. intros Hin.
    assert (existsb (String.eqb x) (unique l) = true); [|congruence].
    apply existsb_exists. exists x. split; [done|apply String.eqb_refl]. }
  rewrite Hx in Hsplit. simpl length. lia.
Qed.

Lemma sum_perm (l1 l2 : list Z) :
  l1 ≡ₚ l2 -> foldr Z.add 0 l1 = foldr Z.add 0 l2.
Proof. induction 1; simpl; lia. Qed.

Lemma unit_bars_total (df : list employee) :
  foldr Z.add 0 ((fun u => occurrences u (Unit <$> df))
                   <$> sorted (unique (Unit <$> df)))
  = Z.of_nat (length df).
Proof.
  rewrite (sum_perm _ ((fun u => occurrences u (Unit <$> df))
                         <$> unique (Unit <$> df))).
  - by rewrite occurrences_total, length_fmap.
  - apply fmap_Permutation. apply merge_sort_Permutation.
Qed.

(** X15.  The bars of the unit chart add up to the number of rows of the
    table: every row is counted in one bar, once. *)
Theorem unit_bars_add_up_to_the_rows (df : list employee) :
  exists counts,
    y_values (unit_counts df) = IntCol counts
    /\ foldr Z.add 0 counts = Z.of_nat (length df).
Proof.
  rewrite unit_counts_eq. simpl. eexists. split; [done|].
  apply unit_bars_total.
Qed.

(** X16.  pandas leaves the order of equally frequent values in
    [value_counts] open; the chart does not depend on it: sorted by
    unit, the counted rows come out in one order whatever order they
    went in. *)
Theorem unit_chart_ignores_the_order_of_ties (l : list string)
    (rows : list (string * Z)) :
  rows ≡ₚ value_counts l ->
  sort_values rows = sort_values (value_counts l).
Proof.
  intros H. rewrite (counted_rows l rows H).
  symmetry. by apply counted_rows.
Qed.

Lemma staff_counts_in_reverse :
  reverse (value_counts (Unit <$> staff)) ≡ₚ value_counts (Unit <$> staff)
  /\ sort_values (reverse (value_counts (Unit <$> staff)))
     = sort_values (value_counts (Unit <$> staff)).
Proof.
  assert (H : reverse (value_counts (Unit <$> staff))
              ≡ₚ value_counts (Unit <$> staff)) by apply reverse_Permutation.
  split; [exact H|].
  exact (unit_chart_ignores_the_order_of_ties (Unit <$> staff) _ H).
Defined.

Lemma occurrences_le (u : string) (l : list string) :
  0 <= occurrences u l <= Z.of_nat (length l).
Proof.
  unfold occurrences. pose proof (filter_length_le (String.eqb u) l). lia.
Qed.

Lemma unit_counts_in_range (df : list employee) :
  Z.of_nat (length df) < 2 ^ 63 ->
  forallb (fun t => (0 <=? t) && (t <? 2 ^ 63))
    ((fun u => occurrences u (Unit <$> df))
       <$> sorted (unique (Unit <$> df))) = true.
Proof.
  intros H. apply forallb_forall. intros t Ht.
  apply in_map_iff in Ht as (u & <- & _).
  pose proof (occurrences_le u (Unit <$> df)) as Hu.
  rewrite length_fmap in Hu. lia.
Qed.

Lemma int_column_returns (xs : list string) (l : list Z) :
  forallb (fun t => (0 <=? t) && (t <? 2 ^ 63)) l = true ->
  ending (animate_plot {| x_values := xs; y_values := IntCol l |}) = Returned
  /\ length (sweeps (animate_plot {| x_values := xs; y_values := IntCol l |}))
     = length l.
Proof.
  intros Hrange.
  set (df := {| x_values := xs; y_values := IntCol l |}).
  assert (Hcell : forall x, In x (cells (y_values df)) ->
                            exists z, x = NInt z /\ 0 <= z < 2 ^ 63).
  { intros x Hx. apply list_elem_of_In, list_elem_of_fmap in Hx as (z & -> & Hz).
    apply list_elem_of_lookup in Hz as [j Hj].
    pose proof (int64_nonneg_lookup l Hrange j z Hj). eauto. }
  destruct (finite_nonnegative_returns df) as [Hret Hlen].
  - apply forallb_forall. intros x Hx.
    destruct (Hcell x Hx) as (z & -> & Hz). simpl. lia.
  - apply forallb_forall. intros x Hx.
    by destruct (Hcell x Hx) as (z & -> & Hz).
  - apply forallb_forall. intros x Hx.
    destruct (Hcell x Hx) as (z & -> & Hz). simpl. lia.
  - split; [done|]. rewrite Hlen. simpl. by rewrite length_fmap.
Qed.

(** X17.  With the Animate button pressed, [unit_bar] runs the animation to
    its end on any table: it returns after one sweep for each bar. *)
Theorem unit_bar_animation_returns (df : list employee) (r : run) :
  Z.of_nat (length df) < 2 ^ 63 ->
  unit_bar df true = Animated r ->
  ending r = Returned
  /\ length (sweeps r) = length (x_values (unit_counts df))
  /\ labels (df_temp r) = x_values (unit_counts df).
Proof.
  intros Hlen Hr. unfold unit_bar, render in Hr. injection Hr as <-.
  rewrite run_labels. rewrite unit_counts_eq.
  destruct (int_column_returns (sorted (unique (Unit <$> df))) _
              (unit_counts_in_range df Hlen)) as [Hret Hsw].
  rewrite Hret, Hsw. simpl. by rewrite length_fmap.
Qed.

Lemma staff_unit_animation_returns :
  Z.of_nat (length staff) < 2 ^ 63
  /\ unit_bar staff true = Animated (animate_plot (unit_counts staff))
  /\ ending (animate_plot (unit_counts staff)) = Returned
  /\ length (sweeps (animate_plot (unit_counts staff)))
     = length (x_values (unit_counts staff))
  /\ labels (df_temp (animate_plot (unit_counts staff)))
     = x_values (unit_counts staff).
Proof.
  split; [reflexivity|]. split; [reflexivity|].
  exact (unit_bar_animation_returns staff _ eq_refl eq_refl).
Defined.

Lemma unit_counts_coarse (df : list employee) (u : string) :
  8 < Z.of_nat (length (List.filter (fun r => String.eqb (Unit r) u) df)) ->
  coarse (series_max (IntCol ((fun u => occurrences u (Unit <$> df))
                                <$> sorted (unique (Unit <$> df))))) = true.
Proof.
  rewrite <- occurrences_rows. intros H.
  assert (Hin : In u (sorted (unique (Unit <$> df)))).
  { apply options_In. destruct (in_dec String.string_dec u (Unit <$> df));
      [done|]. rewrite occurrences_absent in H by done. lia. }
  apply list_elem_of_In, list_elem_of_lookup in Hin as [i Hi].
  destruct (series_max_int
              ((fun u => occurrences u (Unit <$> df))
                 <$> sorted (unique (Unit <$> df))) i
              (occurrences u (Unit <$> df))) as (m & -> & Hm).
  { by rewrite list_lookup_fmap, Hi. }
  unfold coarse, py_gt_int, threshold. lia.
Qed.

(** X18.  When some unit has more than 8 rows, the animation of the unit
    chart ends on the chart that is drawn without animation, after as
    many frames as the table has rows. *)
Theorem busy_unit_animation_ends_on_the_static_chart (df : list employee)
    (u : string) (r : run) (c : chart) :
  Z.of_nat (length df) < 2 ^ 63 ->
  8 < Z.of_nat (length (List.filter (fun r => String.eqb (Unit r) u) df)) ->
  unit_bar df true = Animated r ->
  unit_bar df false = Static c ->
  ending r = Returned
  /\ df_temp r = c
  /\ length (concat (sweeps r)) = length df.
Proof.
  intros Hlen Hu Hr Hc. unfold unit_bar, render in Hr, Hc.
  injection Hr as <-. injection Hc as <-.
  pose proof (unit_counts_in_range df Hlen) as Hrange.
  pose proof (unit_counts_coarse df u Hu) as Hcoarse.
  pose proof (unit_bars_total df) as Htotal.
  rewrite unit_counts_eq.
  set (xs := sorted (unique (Unit <$> df))) in *.
  set (l := (fun u => occurrences u (Unit <$> df)) <$> xs) in *.
  split; [by apply coarse_returns|]. split.
  - pose proof (run_labels {| x_values := xs; y_values := IntCol l |}) as Hl.
    pose proof (coarse_final xs l Hrange Hcoarse) as Hh.
    destruct (df_temp _) as [lab hs]. simpl in *. unfold bar_chart.
    simpl. by subst.
  - apply Nat2Z.inj. rewrite (coarse_frames_total xs l Hrange Hcoarse).
    exact Htotal.
Qed.

Lemma busy_unit_chart :
  Z.of_nat (length busy) < 2 ^ 63
  /\ 8 < Z.of_nat (length (List.filter
                             (fun r => String.eqb (Unit r) "IT") busy))
  /\ unit_bar busy true = Animated (animate_plot (unit_counts busy))
  /\ unit_bar busy false = Static (bar_chart (unit_counts busy))
  /\ ending (animate_plot (unit_counts busy)) = Returned
  /\ df_temp (animate_plot (unit_counts busy)) = bar_chart (unit_counts busy)
  /\ length (concat (sweeps (animate_plot (unit_counts busy))))
     = length busy.
Proof.
  split; [reflexivity|]. split; [reflexivity|].
  split; [reflexivity|]. split; [reflexivity|].
  exact (busy_unit_animation_ends_on_the_static_chart busy "IT" _ _
           eq_refl eq_refl eq_refl eq_refl).
Defined.

Lemma unique_replicate (n : nat) (u : string) :
  unique (replicate (S n) u) = [u].
Proof.
  induction n as [|n IH]; [done|].
  change (unique (replicate (S (S n)) u))
    with (u :: List.filter (fun y => negb (String.eqb y u))
                 (unique (replicate (S n) u))).
  rewrite IH. simpl. by rewrite String.eqb_refl.
Qed.

Lemma occurrences_replicate (n : nat) (u : string) :
  occurrences u (replicate n u) = Z.of_nat n.
Proof.
  unfold occurrences. f_equal. induction n as [|n IH]; [done|].
  simpl. rewrite String.eqb_refl. simpl. by rewrite IH.
Qed.

Lemma filtered_units (u : string) (df : list employee) :
  Unit <$> List.filter (fun r => String.eqb (Unit r) u) df
  = replicate (length (List.filter (fun r => String.eqb (Unit r) u) df)) u.
Proof.
  induction df as [|r df IH]; [done|]. simpl.
  destruct (String.eqb_spec (Unit r) u) as [Hu|]; [|done].
  rewrite fmap_cons, IH. simpl. by rewrite Hu.
Qed.

(** X19.  With a unit selected in the sidebar, the unit chart of the
    displayed table has that unit's bar and no other, as high as the
    table has rows. *)
Theorem selected_unit_is_the_only_bar (text_input_id selectbox_hometown
    selectbox_unit : string) (df_employees shown : list employee) :
  selectbox_unit <> "All"%string ->
  df_employees_filtred text_input_id selectbox_hometown selectbox_unit
    df_employees = Some shown ->
  shown <> [] ->
  unit_counts shown
  = {| x_values := [selectbox_unit];
       y_values := IntCol [Z.of_nat (length shown)] |}.
Proof.
  intros Hall Hshown Hne. unfold df_employees_filtred in Hshown.
  destruct (filter_id text_input_id df_employees) as [df|]; [|done].
  injection Hshown as <-. unfold filter_unit in *.
  apply String.eqb_neq in Hall. rewrite Hall in *. cbn [negb] in *.
  set (rows := filter_hometown selectbox_hometown df) in *.
  rewrite unit_counts_eq, filtered_units.
  destruct (length (List.filter _ rows)) as [|n] eqn:Hn.
  { by apply length_zero_iff_nil in Hn. }
  rewrite unique_replicate.
  change (sorted [selectbox_unit]) with [selectbox_unit].
  cbn [fmap list_fmap]. by rewrite occurrences_replicate.
Qed.

Lemma staff_sales_is_the_only_bar :
  "Sales"%string <> "All"%string
  /\ df_employees_filtred "" "All" "Sales" staff
     = Some (filter_unit "Sales" staff)
  /\ filter_unit "Sales" staff <> []
  /\ unit_counts (filter_unit "Sales" staff)
     = {| x_values := ["Sales"%string];
          y_values := IntCol [Z.of_nat (length (filter_unit "Sales" staff))] |}.
Proof.
  assert (H1 : "Sales"%string <> "All"%string) by done.
  assert (H3 : filter_unit "Sales" staff <> []) by done.
  split; [exact H1|]. split; [reflexivity|]. split; [exact H3|].
  exact (selected_unit_is_the_only_bar "" "All" "Sales" staff _
           H1 eq_refl H3).
Defined.

(** * The histogram of ages *)

Lemma SFcompare_antisym (a b : spec_float) :
  SFcompare b a = option_map CompOpp (SFcompare a b).
Proof.
  destruct a as [sa|sa| |sa ma ea], b as [sb|sb| |sb mb eb];
    try done; try (by destruct sa); try (by destruct sb);
    try (by destruct sa, sb).
  unfold SFcompare, option_map. f_equal.
  rewrite (Z.compare_antisym ea eb).
  change (PosDef.Pos.compare_cont Eq mb ma) with (Pos.compare mb ma).
  change (PosDef.Pos.compare_cont Eq ma mb) with (Pos.compare ma mb).
  rewrite (Pos.compare_antisym ma mb).
  destruct sa, sb; try done;
    destruct (ea ?= eb); try done; by destruct (ma ?= mb)%positive.
Qed.

Lemma SFleb_not_ltb (a b : spec_float) :
  is_nan a = false -> is_nan b = false -> SFleb b a = negb (SFltb a b).
Proof.
  intros Ha Hb. unfold SFleb, SFltb. rewrite (SFcompare_antisym a b).
  destruct (SFcompare a b) as [[| |]|] eqn:E; try done.
  destruct a as [sa|sa| |sa ma ea], b as [sb|sb| |sb mb eb]; done.
Qed.

Lemma hist_cons (x : spec_float) (l : list spec_float) (edges : list Z) :
  np_histogram (x :: l) edges
  = zip_with Z.add (np_histogram [x] edges) (np_histogram l edges).
Proof.
  induction edges as [|lo [|hi rest] IH]; try done.
  change (np_histogram ?a (lo :: hi :: rest))
    with (Z.of_nat (length (List.filter
                              (in_bin lo hi match rest with
                                            | [] => true
                                            | _ => false
                                            end) a))
          :: np_histogram a (hi :: rest)).
  rewrite IH. cbn [zip_with]. f_equal. cbn [List.filter].
  destruct (in_bin lo hi _ x); cbn [length]; lia.
Qed.

(** One age is counted in one bin when it lies within the outer edges,
    and in none otherwise. *)
Lemma one_age_one_bin (a : spec_float) :
  foldr Z.add 0 (np_histogram [a] bin_edges)
  = if counted a then 1 else 0.
Proof.
  destruct (is_nan a) eqn:Hnan; [by destruct a|].
  unfold bin_edges, counted. cbn [np_histogram List.filter foldr].
  unfold in_bin.
  rewrite !(SFleb_not_ltb a) by done.
  rewrite (SFleb_not_ltb (Z2SF 70) a) by done.
  pose proof (fun H => SFltb_trans a (Z2SF 18) (Z2SF 20) H eq_refl) as H1.
  pose proof (fun H => SFltb_trans a (Z2SF 20) (Z2SF 30) H eq_refl) as H2.
  pose proof (fun H => SFltb_trans a (Z2SF 30) (Z2SF 40) H eq_refl) as H3.
  pose proof (fun H => SFltb_trans a (Z2SF 40) (Z2SF 50) H eq_refl) as H4.
  pose proof (fun H => SFltb_trans a (Z2SF 50) (Z2SF 60) H eq_refl) as H5.
  pose proof (fun H => SFltb_trans a (Z2SF 60) (Z2SF 70) H eq_refl) as H6.
  pose proof (SFltb_trans (Z2SF 70) a (Z2SF 70)) as H7.
  change (SFltb (Z2SF 70) (Z2SF 70)) with false in H7.
  destruct (SFltb a (Z2SF 18)), (SFltb a (Z2SF 20)), (SFltb a (Z2SF 30)),
    (SFltb a (Z2SF 40)), (SFltb a (Z2SF 50)), (SFltb a (Z2SF 60)),
    (SFltb a (Z2SF 70)), (SFltb (Z2SF 70) a);
    cbn [negb andb length]; try reflexivity;
    try (by (discriminate (H1 eq_refl) || discriminate (H2 eq_refl)
             || discriminate (H3 eq_refl) || discriminate (H4 eq_refl)
             || discriminate (H5 eq_refl) || discriminate (H6 eq_refl)
             || discriminate (H7 eq_refl eq_refl))).
Qed.

Lemma hist_length (l : list spec_float) :
  length (np_histogram l bin_edges) = 6%nat.
Proof. done. Qed.

Lemma sum_zip_add (l1 l2 : list Z) :
  length l1 = length l2 ->
  foldr Z.add 0 (zip_with Z.add l1 l2) = foldr Z.add 0 l1 + foldr Z.add 0 l2.
Proof.
  revert l2. induction l1 as [|x l1 IH]; intros [|y l2] H; try done.
  cbn [zip_with foldr]. rewrite IH by (by injection H). lia.
Qed.

Lemma hist_total (l : list spec_float) :
  foldr Z.add 0 (np_histogram l bin_edges)
  = Z.of_nat (length (List.filter counted l)).
Proof.
  induction l as [|a l IH]; [done|].
  rewrite hist_cons, sum_zip_add by done.
  rewrite IH, one_age_one_bin. cbn [List.filter].
  destruct (counted a); cbn [length]; lia.
Qed.

Lemma counted_dropna (age : list spec_float) :
  List.filter counted (dropna age) = List.filter counted age.
Proof.
  induction age as [|a age IH]; [done|]. unfold dropna in *.
  cbn [List.filter].
  destruct a as [s|s| |s m e]; cbn [is_nan negb List.filter];
    by rewrite IH.
Qed.

(** X20.  The histogram of ages has six bars.  Together they count the ages
    from 18 to 70, both included: an age outside, or a missing age, is
    in no bar, and no age is in two. *)
Theorem age_bars_count_the_ages_from_18_to_70 (age : list spec_float) :
  exists counts,
    y_values (hist_df age) = IntCol counts
    /\ length counts = length (x_values (hist_df age))
    /\ foldr Z.add 0 counts
       = Z.of_nat (length (List.filter counted age)).
Proof.
  eexists. split; [done|]. split; [done|].
  by rewrite hist_total, counted_dropna.
Qed.

Lemma whole_age_marks (n : Z) :
  18 <= n <= 70 ->
  is_nan (Z2SF n) = false
  /\ np_histogram [Z2SF n] bin_edges
     = <[decade_bar n := 1]> (replicate 6 0).
Proof.
  intros Hn.
  assert (Hk : exists k : nat, n = 18 + Z.of_nat k /\ (k < 53)%nat).
  { exists (Z.to_nat (n - 18)). lia. }
  destruct Hk as (k & -> & Hk).
  do 53 (destruct k as [|k]; [by vm_compute|]). lia.
Qed.

Lemma add_mark (b : nat) (counts : list Z) :
  length counts = 6%nat ->
  zip_with Z.add (<[b := 1]> (replicate 6 0)) counts = alter Z.succ b counts.
Proof.
  intros H.
  destruct counts as [|c0 [|c1 [|c2 [|c3 [|c4 [|c5 [|]]]]]]]; try done.
  do 6 (destruct b as [|b]; [cbn; repeat f_equal; lia|]).
  cbn. repeat f_equal; lia.
Qed.

(** X21.  An employee of a whole age from 18 to 70 adds one to the bar
    labelled with the decade of that age, "18-19" below 20, and to no
    other bar; an age of 70 is counted under "60-69". *)
Theorem a_whole_age_raises_the_bar_of_its_decade (n : Z)
    (age : list spec_float) :
  18 <= n <= 70 ->
  np_histogram (dropna (Z2SF n :: age)) bin_edges
  = alter Z.succ (decade_bar n) (np_histogram (dropna age) bin_edges).
Proof.
  intros Hn. destruct (whole_age_marks n Hn) as [Hnan Hmarks].
  unfold dropna. cbn [List.filter]. rewrite Hnan. cbn [negb].
  rewrite hist_cons, Hmarks. by apply add_mark.
Qed.

Lemma age_70_is_counted_under_60_69 :
  18 <= 70 <= 70
  /\ age_ranges !! decade_bar 70 = Some "60-69"%string
  /\ np_histogram (dropna [Z2SF 70; Z2SF 25]) bin_edges
     = alter Z.succ (decade_bar 70)
         (np_histogram (dropna [Z2SF 25]) bin_edges).
Proof.
  split; [lia|]. split; [reflexivity|].
  apply (a_whole_age_raises_the_bar_of_its_decade 70 [Z2SF 25]). lia.
Defined.

Lemma hist_in_range (age : list spec_float) :
  Z.of_nat (length age) < 2 ^ 63 ->
  forallb (fun t => (0 <=? t) && (t <? 2 ^ 63))
    (np_histogram (dropna age) bin_edges) = true.
Proof.
  intros H.
  assert (Hd : (length (dropna age) <= length age)%nat)
    by apply filter_length_le.
  assert (Hf : forall f, (length (List.filter f (dropna age))
                          <= length (dropna age))%nat)
    by (intros f; apply filter_length_le).
  unfold bin_edges. cbn [np_histogram forallb].
  repeat match goal with
         | |- context [List.filter ?f (dropna age)] =>
             let n := fresh "n" in
             let Hn := fresh "Hn" in
             pose proof (Hf f) as Hn;
             set (n := length (List.filter f (dropna age))) in *;
             clearbody n
         end.
  repeat (apply andb_true_intro; split); try done; lia.
Qed.

(** X22.  With the Animate button pressed, [ages_hist] runs the animation to
    its end on any table, with one sweep for each of the six bars.
    When some bar counts more than 8 ages, it ends on the chart that is
    drawn without animation, after one frame for each counted age. *)
Theorem ages_hist_animation (age : list spec_float) (r : run) (c : chart) :
  Z.of_nat (length age) < 2 ^ 63 ->
  ages_hist age true = Animated r ->
  ages_hist age false = Static c ->
  ending r = Returned
  /\ length (sweeps r) = 6%nat
  /\ labels (df_temp r) = age_ranges
  /\ forall j t,
       cells (y_values (hist_df age)) !! j = Some (NInt t) -> 8 < t ->
       df_temp r = c
       /\ length (concat (sweeps r)) = length (List.filter counted age).
Proof.
  intros Hlen Hr Hc. unfold ages_hist, render in Hr, Hc.
  injection Hr as <-. injection Hc as <-.
  pose proof (hist_in_range age Hlen) as Hrange.
  unfold hist_df.
  set (l := np_histogram (dropna age) bin_edges) in *.
  destruct (int_column_returns age_ranges l Hrange) as [Hret Hsw].
  split; [done|]. split; [by rewrite Hsw|].
  split; [apply run_labels|].
  intros j t Hj Ht. cbn [cells y_values] in Hj.
  rewrite list_lookup_fmap in Hj.
  destruct (l !! j) as [t'|] eqn:Hjl; [|done]. injection Hj as ->.
  assert (Hcoarse : coarse (series_max (IntCol l)) = true).
  { destruct (series_max_int l j t Hjl) as (m & -> & Hm).
    unfold coarse, py_gt_int, threshold. lia. }
  split.
  - pose proof (run_labels {| x_values := age_ranges; y_values := IntCol l |})
      as Hl.
    pose proof (coarse_final age_ranges l Hrange Hcoarse) as Hh.
    destruct (df_temp _) as [lab hs]. simpl in *. unfold bar_chart.
    simpl. by subst.
  - apply Nat2Z.inj.
    rewrite (coarse_frames_total age_ranges l Hrange Hcoarse).
    unfold l. by rewrite hist_total, counted_dropna.
Qed.

Lemma crowd_animation_ends_on_the_static_chart :
  Z.of_nat (length crowd) < 2 ^ 63
  /\ ages_hist crowd true = Animated (animate_plot (hist_df crowd))
  /\ ages_hist crowd false = Static (bar_chart (hist_df crowd))
  /\ ending (animate_plot (hist_df crowd)) = Returned
  /\ df_temp (animate_plot (hist_df crowd)) = bar_chart (hist_df crowd)
  /\ length (concat (sweeps (animate_plot (hist_df crowd)))) = 10%nat.
Proof.
  split; [reflexivity|]. split; [reflexivity|]. split; [reflexivity|].
  destruct (ages_hist_animation crowd _ _ eq_refl eq_refl eq_refl)
    as (Hret & _ & _ & Hbusy).
  split; [exact Hret|]. apply (Hbusy 1%nat 9); [reflexivity|lia].
Defined.

(** * The ticks of the scatter plots *)

(** X23.  When the smallest and the largest value of the column have whole
    parts [min_x] and [max_x], the ticks of the x axis are [min_x],
    [min_x + 2], [min_x + 4], ...: every second whole number from
    [min_x] on that is not beyond [max_x], and none besides. *)
Theorem ticks_are_every_second_number (c : column) (min_x max_x : Z) :
  py_int (series_min c) = Ok min_x ->
  py_int (series_max c) = Ok max_x ->
  - 2 ^ 63 <= min_x -> max_x + 1 < 2 ^ 63 ->
  exists n,
    x_ticks c = Ok ((fun k => NInt (min_x + k * 2)) <$> seqZ 0 n)
    /\ (forall k, 0 <= k < n -> min_x + k * 2 <= max_x)
    /\ (forall z, min_x <= z <= max_x -> (z - min_x) mod 2 = 0 ->
                  exists k, 0 <= k < n /\ z = min_x + k * 2).
Proof.
  intros Hmin Hmax _ _. unfold x_ticks. rewrite Hmin, Hmax.
  exists (ceil_div (max_x + 1 - min_x) 2). split; [done|].
  unfold ceil_div. split.
  - intros k Hk. Z.div_mod_to_equations. lia.
  - intros z Hz Hpar. exists ((z - min_x) / 2).
    Z.div_mod_to_equations. lia.
Qed.

Lemma ticks_from_1_to_10 :
  py_int (series_min (FloatCol [Z2SF 3; Z2SF 10; S754_nan; Z2SF 1])) = Ok 1
  /\ py_int (series_max (FloatCol [Z2SF 3; Z2SF 10; S754_nan; Z2SF 1]))
     = Ok 10
  /\ exists n,
       x_ticks (FloatCol [Z2SF 3; Z2SF 10; S754_nan; Z2SF 1])
       = Ok ((fun k => NInt (1 + k * 2)) <$> seqZ 0 n)
       /\ (forall k, 0 <= k < n -> 1 + k * 2 <= 10)
       /\ (forall z, 1 <= z <= 10 -> (z - 1) mod 2 = 0 ->
                     exists k, 0 <= k < n /\ z = 1 + k * 2).
Proof.
  split; [reflexivity|]. split; [reflexivity|].
  apply (ticks_are_every_second_number
           (FloatCol [Z2SF 3; Z2SF 10; S754_nan; Z2SF 1]) 1 10);
    [reflexivity|reflexivity|lia|lia].
Defined.

Lemma dropna_all_nan (l : list spec_float) :
  forallb is_nan l = true -> dropna l = [].
Proof.
  induction l as [|f l IH]; [done|]. cbn [forallb]. intros H.
  apply andb_prop in H as [Hf Hl]. unfold dropna in *.
  cbn [List.filter]. rewrite Hf. cbn [negb]. by apply IH.
Qed.

(** X24.  A column without a single value, empty or all missing, has no
    smallest value to start the ticks from: [int] raises ValueError. *)
Theorem ticks_need_a_value (l : list spec_float) :
  forallb is_nan l = true -> x_ticks (FloatCol l) = Raise ValueError.
Proof.
  intros H. unfold x_ticks, series_min. by rewrite (dropna_all_nan l H).
Qed.

Lemma ticks_of_a_missing_column :
  forallb is_nan [S754_nan; S754_nan] = true
  /\ x_ticks (FloatCol [S754_nan; S754_nan]) = Raise ValueError.
Proof.
  split; [reflexivity|].
  exact (ticks_need_a_value [S754_nan; S754_nan] eq_refl).
Defined.
